(** * Profile form: the workflow of [UserForm.tsx] and the view of
      [ViewProfile.tsx]

    A shallow embedding of the two React components of the repository and
    of the Supabase client they call, followed by the properties of the
    profile workflow: loading, editing, avatar upload and saving. *)

From Stdlib Require Import NArith String Ascii.
From stdpp Require Import base option list gmap.

Local Open Scope N_scope.

(** ** JavaScript strings

    A JavaScript string is a sequence of UTF-16 code units.  [String.split],
    [String.trim] and [===] all work on code units, so this is the
    representation the model uses; [js] embeds an ASCII literal. *)

Abbreviation jsstring := (list N).

Definition js (s : string) : jsstring :=
  map N_of_ascii (list_ascii_of_string s).

(** [WhiteSpace] and [LineTerminator] of ECMAScript: the code units that
    [String.prototype.trim] strips. *)
Definition is_whitespace (c : N) : bool :=
  (c =? 0x09) || (c =? 0x0A) || (c =? 0x0B) || (c =? 0x0C) || (c =? 0x0D)
  || (c =? 0x20) || (c =? 0xA0) || (c =? 0x1680)
  || ((0x2000 <=? c) && (c <=? 0x200A))
  || (c =? 0x2028) || (c =? 0x2029) || (c =? 0x202F) || (c =? 0x205F)
  || (c =? 0x3000) || (c =? 0xFEFF).

Fixpoint trimStart (s : jsstring) : jsstring :=
  match s with
  | c :: r => if is_whitespace c then trimStart r else s
  | [] => []
  end.

Definition trimEnd (s : jsstring) : jsstring :=
  reverse (trimStart (reverse s)).

(** [s.trim()] *)
Definition trim (s : jsstring) : jsstring := trimEnd (trimStart s).

(** [s.split(sep)] for a separator of one code unit (the source only
    splits on [","] and ["."]).  The result is never empty: the empty
    string splits into one empty segment. *)
Fixpoint split (sep : N) (s : jsstring) : list jsstring :=
  match s with
  | [] => [[]]
  | c :: r =>
      if c =? sep then [] :: split sep r
      else match split sep r with
           | seg :: segs => (c :: seg) :: segs
           | [] => [[c]]
           end
  end.

(** [segs.join(sep)], the inverse reading of [split]. *)
Fixpoint join (sep : N) (segs : list jsstring) : jsstring :=
  match segs with
  | [] => []
  | [seg] => seg
  | seg :: rest => seg ++ sep :: join sep rest
  end.

(** [arr.pop()] as an expression: the last element, [undefined] on an
    empty array. *)
Definition pop (arr : list jsstring) : option jsstring := last arr.

(** A template-literal hole: [undefined] prints as the word. *)
Definition template (v : option jsstring) : jsstring :=
  match v with
  | Some s => s
  | None => js "undefined"
  end.

Definition comma : N := 44.
Definition dot : N := 46.

(** ** Data model *)

(** [UserProfile] of the type declarations.  An optional field holds a
    string or [null]; no code path of the components stores [undefined]
    in a field, so [None] stands for [null]. *)
Record UserProfile := {
  id : jsstring;
  first_name : jsstring;
  last_name : jsstring;
  date_of_birth : jsstring;
  country : jsstring;
  religion : option jsstring;
  blood_group : option jsstring;
  marital_status : option jsstring;
  institution : option jsstring;
  hobbies : option (list jsstring);
  avatar_url : option jsstring;
}.

(** The user object of the identity provider; only [user.id] is read. *)
Module User.
Record t := mk { id : jsstring }.
End User.

(** A browser [File]: its name and its bytes. *)
Record File := {
  name : jsstring;
  bytes : list N;
}.

(** Values that are thrown or returned in an [error] slot.  All three
    carry a [message]. *)
Inductive Err :=
| JsError (msg : jsstring)          (* new Error(msg) *)
| PostgrestError (msg : jsstring)   (* from('profiles') *)
| StorageError (msg : jsstring).    (* storage.from('avatars') *)

Definition message (e : Err) : jsstring :=
  match e with
  | JsError m | PostgrestError m | StorageError m => m
  end.

(** ** The Supabase client

    The hosted services are outside the repository.  The model keeps what
    the components can observe: the signed-in user, the [profiles] table
    keyed by [id], the [avatars] bucket keyed by path, and for each
    request an oracle that says whether the service rejects it.  The
    components change neither the session nor the oracles.  [calls]
    records every request in the order it is issued, and [console] what
    [console.error] printed. *)

Inductive Call :=
| AuthGetUser
| ProfilesSelectSingle (owner : jsstring)
| ProfilesUpsert (row : UserProfile)
| StorageUpload (path : jsstring) (file : File)
| StorageGetPublicUrl (path : jsstring).

Record World := {
  auth_user : option User.t;
  profiles : gmap jsstring UserProfile;
  avatars : gmap jsstring File;
  select_fault : jsstring -> option Err;
  upsert_fault : UserProfile -> option Err;
  upload_fault : jsstring -> File -> option Err;
  public_url : jsstring -> jsstring;
  calls : list Call;
  console : list Err;
}.

Definition log (c : Call) (w : World) : World :=
  {| auth_user := auth_user w; profiles := profiles w; avatars := avatars w;
     select_fault := select_fault w; upsert_fault := upsert_fault w;
     upload_fault := upload_fault w; public_url := public_url w;
     calls := calls w ++ [c]; console := console w |}.

Definition set_profiles (m : gmap jsstring UserProfile) (w : World) : World :=
  {| auth_user := auth_user w; profiles := m; avatars := avatars w;
     select_fault := select_fault w; upsert_fault := upsert_fault w;
     upload_fault := upload_fault w; public_url := public_url w;
     calls := calls w; console := console w |}.

Definition set_avatars (m : gmap jsstring File) (w : World) : World :=
  {| auth_user := auth_user w; profiles := profiles w; avatars := m;
     select_fault := select_fault w; upsert_fault := upsert_fault w;
     upload_fault := upload_fault w; public_url := public_url w;
     calls := calls w; console := console w |}.

Definition print_error (e : Err) (w : World) : World :=
  {| auth_user := auth_user w; profiles := profiles w; avatars := avatars w;
     select_fault := select_fault w; upsert_fault := upsert_fault w;
     upload_fault := upload_fault w; public_url := public_url w;
     calls := calls w; console := console w ++ [e] |}.

(** *** Promises: state passing over [World] with rejection *)

Inductive Outcome (A : Type) :=
| Resolved (a : A)
| Rejected (e : Err).
Arguments Resolved {A} a.
Arguments Rejected {A} e.

Definition Async (A : Type) : Type := World -> Outcome A * World.

Definition ret {A} (a : A) : Async A := fun w => (Resolved a, w).

Definition throw {A} (e : Err) : Async A := fun w => (Rejected e, w).

Definition bind {A B} (m : Async A) (k : A -> Async B) : Async B :=
  fun w =>
    match m w with
    | (Resolved a, w') => k a w'
    | (Rejected e, w') => (Rejected e, w')
    end.

(** [try { body } catch (err) { handler }] *)
Definition try_catch {A} (body : Async A) (handler : Err -> Async A) : Async A :=
  fun w =>
    match body w with
    | (Resolved a, w') => (Resolved a, w')
    | (Rejected e, w') => handler e w'
    end.

Declare Scope async_scope.
Delimit Scope async_scope with async.
Notation "'let*' x ':=' m 'in' k" := (bind m (fun x => k))
  (at level 10, x name, m at level 100, k at level 200) : async_scope.

(** A [{ data, error }] response. *)
Record Response (A : Type) := {
  data : option A;
  error_of : option Err;
}.
Arguments data {A} r.
Arguments error_of {A} r.

(** The error [.single()] reports when the query matches no row. *)
Definition no_rows : Err :=
  PostgrestError (js "JSON object requested, multiple (or no) rows returned").

(** Modelled from the spec: the Identity Provider Client's
    [getCurrentUser() -> {id} | none], which the source calls as
    [supabase.auth.getUser()]. *)
Definition auth_getUser : Async (option User.t) :=
  fun w => (Resolved (auth_user w), log AuthGetUser w).

(** Modelled from the spec: the Profile Store Client's
    [fetchOne(ownerId) -> Profile | NotFoundError], which the source calls
    as [supabase.from('profiles').select('*').eq('id', owner).single()];
    the answer has [data] or [error], never both. *)
Definition profiles_select_single (owner : jsstring) : Async (Response UserProfile) :=
  fun w =>
    let w' := log (ProfilesSelectSingle owner) w in
    match select_fault w owner with
    | Some e => (Resolved {| data := None; error_of := Some e |}, w')
    | None =>
        match profiles w !! owner with
        | Some row => (Resolved {| data := Some row; error_of := None |}, w')
        | None => (Resolved {| data := None; error_of := Some no_rows |}, w')
        end
    end.

(** Modelled from the spec: the Profile Store Client's
    [upsert(Profile) -> success | Error], insert-or-update by the primary
    key [id], which the source calls as
    [supabase.from('profiles').upsert(row)]; the result is the [error]
    slot. *)
Definition profiles_upsert (row : UserProfile) : Async (option Err) :=
  fun w =>
    let w' := log (ProfilesUpsert row) w in
    match upsert_fault w row with
    | Some e => (Resolved (Some e), w')
    | None => (Resolved None, set_profiles (<[id row := row]> (profiles w)) w')
    end.

(** Modelled from the spec: the Object Store Client's
    [upload(path, bytes, {overwrite: true}) -> success | Error], which the
    source calls as
    [supabase.storage.from('avatars').upload(path, file, { upsert: true })]. *)
Definition storage_upload (path : jsstring) (file : File) : Async (option Err) :=
  fun w =>
    let w' := log (StorageUpload path file) w in
    match upload_fault w path file with
    | Some e => (Resolved (Some e), w')
    | None => (Resolved None, set_avatars (<[path := file]> (avatars w)) w')
    end.

(** Modelled from the spec: the Object Store Client's
    [resolvePublicUrl(path) -> URL], synchronous and always successful,
    which the source calls as
    [supabase.storage.from('avatars').getPublicUrl(path)]. *)
Definition storage_getPublicUrl (path : jsstring) : Async jsstring :=
  fun w => (Resolved (public_url w path), log (StorageGetPublicUrl path) w).

(** [console.error('Error loading profile:', error)] *)
Definition console_error (e : Err) : Async unit :=
  fun w => (Resolved tt, print_error e w).

Local Open Scope async_scope.

(** ** The component [UserForm] *)

(** The four [useState] cells. *)
Record State := {
  profile : UserProfile;
  isEditing : bool;
  error : jsstring;
  avatarFile : option File;
}.

Definition initial_profile : UserProfile :=
  {| id := js ""; first_name := js ""; last_name := js "";
     date_of_birth := js ""; country := js "";
     religion := Some (js ""); blood_group := Some (js "");
     marital_status := Some (js ""); institution := Some (js "");
     hobbies := Some []; avatar_url := Some (js "") |}.

Definition initial_state : State :=
  {| profile := initial_profile; isEditing := true; error := js "";
     avatarFile := None |}.

Definition setProfile (p : UserProfile) (st : State) : State :=
  {| profile := p; isEditing := isEditing st; error := error st;
     avatarFile := avatarFile st |}.

Definition setIsEditing (b : bool) (st : State) : State :=
  {| profile := profile st; isEditing := b; error := error st;
     avatarFile := avatarFile st |}.

Definition setError (m : jsstring) (st : State) : State :=
  {| profile := profile st; isEditing := isEditing st; error := m;
     avatarFile := avatarFile st |}.

Definition setAvatarFile (f : option File) (st : State) : State :=
  {| profile := profile st; isEditing := isEditing st; error := error st;
     avatarFile := f |}.

Definition loadProfile (st : State) : Async State :=
  let* user := auth_getUser in
  match user with
  | None => ret st
  | Some user =>
      let* r := profiles_select_single (User.id user) in
      match error_of r with
      | Some e => let* _ := console_error e in ret st
      | None =>
          match data r with
          | Some row => ret (setIsEditing false (setProfile row st))
          | None => ret st
          end
      end
  end.

(** [file.name.split('.').pop()] *)
Definition fileExt (file : File) : option jsstring :=
  pop (split dot (name file)).

(** [`${user.id}/avatar.${fileExt}`] *)
Definition filePath (user : User.t) (file : File) : jsstring :=
  User.id user ++ js "/avatar." ++ template (fileExt file).

(** Returns the public URL, or [null] when no user is signed in. *)
Definition handleAvatarUpload (file : File) : Async (option jsstring) :=
  let* user := auth_getUser in
  match user with
  | None => ret None
  | Some user =>
      let* uploadError := storage_upload (filePath user file) file in
      match uploadError with
      | Some e => throw e
      | None =>
          let* publicUrl := storage_getPublicUrl (filePath user file) in
          ret (Some publicUrl)
      end
  end.

(** [{ ...profile, id: user.id, avatar_url: avatarUrl }] *)
Definition upsert_row (p : UserProfile) (user : User.t)
    (avatarUrl : option jsstring) : UserProfile :=
  {| id := User.id user; first_name := first_name p; last_name := last_name p;
     date_of_birth := date_of_birth p; country := country p;
     religion := religion p; blood_group := blood_group p;
     marital_status := marital_status p; institution := institution p;
     hobbies := hobbies p; avatar_url := avatarUrl |}.

(** The body of the [try] block.  The closing [loadProfile()] is not
    awaited in the source; it never rejects, so running it here changes
    nothing but the order in which the state updates are written down. *)
Definition handleSubmit_try (st : State) : Async State :=
  let* user := auth_getUser in
  match user with
  | None => throw (JsError (js "No user logged in"))
  | Some user =>
      let* avatarUrl :=
        match avatarFile st with
        | Some file => handleAvatarUpload file
        | None => ret (avatar_url (profile st))
        end in
      let* upsertError := profiles_upsert (upsert_row (profile st) user avatarUrl) in
      match upsertError with
      | Some e => throw e
      | None => loadProfile (setIsEditing false st)
      end
  end.

Definition handleSubmit (st : State) : Async State :=
  let st := setError (js "") st in
  try_catch (handleSubmit_try st)
            (fun err => ret (setError (message err) st)).

(** The inputs of the form that carry [onChange={handleChange}], by
    their [name] attribute. *)
Inductive InputName :=
| first_name_input | last_name_input | date_of_birth_input | country_input
| marital_status_input | institution_input | religion_input
| blood_group_input | hobbies_input.

(** [{ ...prev, [name]: v }] *)
Definition set_text (n : InputName) (v : jsstring) (p : UserProfile) : UserProfile :=
  {| id := id p;
     first_name := match n with first_name_input => v | _ => first_name p end;
     last_name := match n with last_name_input => v | _ => last_name p end;
     date_of_birth := match n with date_of_birth_input => v | _ => date_of_birth p end;
     country := match n with country_input => v | _ => country p end;
     religion := match n with religion_input => Some v | _ => religion p end;
     blood_group := match n with blood_group_input => Some v | _ => blood_group p end;
     marital_status := match n with marital_status_input => Some v | _ => marital_status p end;
     institution := match n with institution_input => Some v | _ => institution p end;
     hobbies := hobbies p;
     avatar_url := avatar_url p |}.

Definition set_hobbies (hs : list jsstring) (p : UserProfile) : UserProfile :=
  {| id := id p; first_name := first_name p; last_name := last_name p;
     date_of_birth := date_of_birth p; country := country p;
     religion := religion p; blood_group := blood_group p;
     marital_status := marital_status p; institution := institution p;
     hobbies := Some hs; avatar_url := avatar_url p |}.

Definition handleChange (n : InputName) (value : jsstring) (st : State) : State :=
  match n with
  | hobbies_input =>
      setProfile (set_hobbies (map trim (split comma value)) (profile st)) st
  | _ => setProfile (set_text n value (profile st)) st
  end.

(** [e.target.files] is a [FileList] or [null]; [files[0]] is its first
    entry when there is one. *)
Definition handleFileChange (files : option (list File)) (st : State) : State :=
  match files with
  | Some (f :: _) => setAvatarFile (Some f) st
  | _ => st
  end.

(** The inputs marked [required] must hold a value before the browser
    lets the form submit. *)
Definition filled (v : jsstring) : bool :=
  match v with [] => false | _ :: _ => true end.

Definition required_filled (p : UserProfile) : bool :=
  filled (first_name p) && filled (last_name p)
  && filled (date_of_birth p) && filled (country p).

(** The events of the mounted form: the mount effect, the Edit button,
    a change of an input, a change of the file input, and submit. *)
Inductive Event :=
| Mount
| ClickEdit
| Change (n : InputName) (value : jsstring)
| FileChange (files : option (list File))
| Submit.

(** What the rendered form lets happen: the Edit button exists only
    outside edit mode, the inputs are [disabled] outside edit mode, the
    file input and the submit button exist only in edit mode. *)
Definition enabled (ev : Event) (st : State) : bool :=
  match ev with
  | Mount => true
  | ClickEdit => negb (isEditing st)
  | Change _ _ => isEditing st
  | FileChange _ => isEditing st
  | Submit => isEditing st && required_filled (profile st)
  end.

Definition handler (ev : Event) (st : State) : Async State :=
  match ev with
  | Mount => loadProfile st
  | ClickEdit => ret (setIsEditing true st)
  | Change n v => ret (handleChange n v st)
  | FileChange fs => ret (handleFileChange fs st)
  | Submit => handleSubmit st
  end.

Definition step (ev : Event) (st : State) : Async State :=
  if enabled ev st then handler ev st else ret st.

(** A run of the form: the events in order, each on the state and the
    world the one before left. *)
Fixpoint run (evs : list Event) (st : State) : Async State :=
  match evs with
  | [] => ret st
  | ev :: evs => let* st' := step ev st in run evs st'
  end.

(** ** The component [ViewProfile] *)

Module ViewProfile.

(** Its one [useState] cell is the profile, [null] until loaded. *)
Definition loadProfile (st : option UserProfile) : Async (option UserProfile) :=
  let* user := auth_getUser in
  match user with
  | None => ret st
  | Some user =>
      let* r := profiles_select_single (User.id user) in
      match error_of r with
      | Some e => let* _ := console_error e in ret st
      | None =>
          match data r with
          | Some row => ret (Some row)
          | None => ret st
          end
      end
  end.

(** What the Hobbies cell shows: a [<ul>] with one [<li>] per entry, or
    a text. *)
Inductive HobbiesCell :=
| Items (lis : list jsstring)
| Text (t : jsstring).

(** [profile.hobbies && profile.hobbies.length > 0 ? <ul>...</ul> : '...'].
    An array is truthy whatever its length; only [null] is not. *)
Definition hobbies_cell (p : UserProfile) : HobbiesCell :=
  match hobbies p with
  | Some hs =>
      if (0 <? length hs)%nat then Items (map (fun hobby => hobby) hs)
      else Text (js "No hobbies specified")
  | None => Text (js "No hobbies specified")
  end.

(** [v || 'Not specified']: the empty string and [null] are falsy. *)
Definition or_not_specified (v : option jsstring) : jsstring :=
  match v with
  | Some (c :: s) => c :: s
  | _ => js "Not specified"
  end.

Inductive Rendered :=
| Loading
| Page (institution_dd religion_dd blood_group_dd : jsstring)
       (hobbies_dd : HobbiesCell).

Definition render (st : option UserProfile) : Rendered :=
  match st with
  | None => Loading
  | Some p =>
      Page (or_not_specified (institution p))
           (or_not_specified (religion p))
           (or_not_specified (blood_group p))
           (hobbies_cell p)
  end.

End ViewProfile.

(** ** The vocabulary of the specification

    The relations below say in the specification's words what the
    operations are meant to compute; the properties compare them with the
    functions above. *)

Definition whitespace (c : N) : Prop := is_whitespace c = true.

(** [t] is [s] without its surrounding whitespace: what was cut off on
    both sides is whitespace, and what is left neither starts nor ends
    with whitespace. *)
Definition trimmed_of (s t : jsstring) : Prop :=
  exists l r,
    s = l ++ t ++ r /\ Forall whitespace l /\ Forall whitespace r /\
    (forall c, head t = Some c -> ~ whitespace c) /\
    (forall c, last t = Some c -> ~ whitespace c).

(** [segs] are the pieces of [text] between its commas, in order. *)
Definition comma_segments (text : jsstring) (segs : list jsstring) : Prop :=
  segs <> [] /\ join comma segs = text /\ Forall (fun seg => comma ∉ seg) segs.

(** "Split on commas, each segment trimmed of surrounding whitespace,
    producing the ordered sequence". *)
Definition split_and_trimmed (text : jsstring) (hs : list jsstring) : Prop :=
  exists segs, comma_segments text segs /\ Forall2 trimmed_of segs hs.

(** The entries of a hobbies sequence that are not the empty string. *)
Definition meaningful_entries (hs : option (list jsstring)) : list jsstring :=
  filter (fun h => h <> []) (default [] hs).

(** The text the Read-Only View shows in place of the hobbies. *)
Definition no_hobbies : jsstring := js "No hobbies specified".

(** The message of the [NotAuthenticated] failure. *)
Definition not_authenticated : Err := JsError (js "No user logged in").

(** The avatar URL a Save sends: the public URL of the uploaded object
    when a file is pending, the draft's own URL otherwise. *)
Definition resolved_avatar_url (st : State) (w : World) (user : User.t)
    : option jsstring :=
  match avatarFile st with
  | Some file => Some (public_url w (filePath user file))
  | None => avatar_url (profile st)
  end.

(** The three ways a Save fails, with the error each reports. *)
Inductive SaveFailure (st : State) (w : World) : Err -> Prop :=
| NotAuthenticated :
    auth_user w = None ->
    SaveFailure st w not_authenticated
| UploadFailure user file e :
    auth_user w = Some user ->
    avatarFile st = Some file ->
    upload_fault w (filePath user file) file = Some e ->
    SaveFailure st w e
| PersistFailure user e :
    auth_user w = Some user ->
    (forall file, avatarFile st = Some file ->
                  upload_fault w (filePath user file) file = None) ->
    upsert_fault w (upsert_row (profile st) user (resolved_avatar_url st w user))
    = Some e ->
    SaveFailure st w e.

(** The requests a world received after an earlier one: [cs] is what
    [w'] logged beyond [w]. *)
Definition issued (w w' : World) (cs : list Call) : Prop :=
  calls w' = calls w ++ cs.

(** The session and the behaviour of the services are the same in both
    worlds. *)
Definition same_services (w w' : World) : Prop :=
  auth_user w' = auth_user w /\ select_fault w' = select_fault w /\
  upsert_fault w' = upsert_fault w /\ upload_fault w' = upload_fault w /\
  public_url w' = public_url w.

(** "The file's extension": what follows the last dot of the name.  A
    name without a dot has no extension. *)
Definition extension_of (nm ext : jsstring) : Prop :=
  exists stem, nm = stem ++ dot :: ext /\ dot ∉ ext.

Definition is_store_call (c : Call) : bool :=
  match c with
  | AuthGetUser => false
  | _ => true
  end.

Definition is_upload (c : Call) : bool :=
  match c with
  | StorageUpload _ _ => true
  | _ => false
  end.

Definition is_upsert (c : Call) : bool :=
  match c with
  | ProfilesUpsert _ => true
  | _ => false
  end.

(** ** Sample data

    The scenario of the specification: the user [U1] has no row yet,
    types a name, a date of birth and a country, picks a picture and
    saves. *)

Definition u1 : User.t := User.mk (js "U1").

Definition portrait : File :=
  {| name := js "me.at.home.png"; bytes := [137; 80; 78; 71] |}.

Definition bucket_url (path : jsstring) : jsstring :=
  js "https://project.supabase.co/storage/v1/object/public/avatars/" ++ path.

(** A backend with empty stores that accepts every request. *)
Definition fresh_world (user : option User.t) : World :=
  {| auth_user := user; profiles := ∅; avatars := ∅;
     select_fault := fun _ => None; upsert_fault := fun _ => None;
     upload_fault := fun _ _ => None; public_url := bucket_url;
     calls := []; console := [] |}.

(** The draft of the scenario, and the same with a picture selected. *)
Definition ada_draft : State :=
  handleChange country_input (js "UK")
    (handleChange date_of_birth_input (js "1815-12-10")
       (handleChange last_name_input (js "Lovelace")
          (handleChange first_name_input (js "Ada") initial_state))).

Definition ada_draft_with_portrait : State :=
  handleFileChange (Some [portrait]) ada_draft.

(** The row and the object that Save leaves behind. *)
Definition ada_row : UserProfile :=
  upsert_row (profile ada_draft) u1 (Some (bucket_url (js "U1/avatar.png"))).

(** The backend of a returning user: the row and the picture are there.
    [refuse] is the answer of the bucket to an upload. *)
Definition returning_world (refuse : option Err) : World :=
  {| auth_user := Some u1;
     profiles := {[ js "U1" := ada_row ]};
     avatars := {[ js "U1/avatar.png" := portrait ]};
     select_fault := fun _ => None; upsert_fault := fun _ => None;
     upload_fault := fun _ _ => refuse; public_url := bucket_url;
     calls := []; console := [] |}.

Definition too_large : Err := StorageError (js "Payload too large").

(** Another picture of the same extension. *)
Definition holiday : File :=
  {| name := js "holiday.png"; bytes := [137; 80; 78; 71; 13; 10] |}.

(** The returning user, in edit mode after Load, picks the new picture. *)
Definition ada_changes_picture : State :=
  handleFileChange (Some [holiday])
    (setIsEditing true (setIsEditing false (setProfile ada_row initial_state))).

(** ** Further parts of the components *)

(** [arr.join(sep)] *)
Fixpoint joinWith (sep : jsstring) (arr : list jsstring) : jsstring :=
  match arr with
  | [] => []
  | [s] => s
  | s :: rest => s ++ sep ++ joinWith sep rest
  end.

(** The [value] of the hobbies textarea:
    [profile.hobbies?.join(', ') || '']. *)
Definition hobbies_value (p : UserProfile) : jsstring :=
  match hobbies p with
  | Some hs =>
      match joinWith (js ", ") hs with
      | [] => js ""
      | c :: s => c :: s
      end
  | None => js ""
  end.

(** The [Change] events of a list of edits. *)
Definition changes (edits : list (InputName * jsstring)) : list Event :=
  map (fun e => Change (fst e) (snd e)) edits.

(** What the upload stage of a Save asks of the services, and the
    bucket it leaves, when no upload is refused. *)
Definition upload_requests (st : State) (user : User.t) : list Call :=
  match avatarFile st with
  | Some file => [AuthGetUser; StorageUpload (filePath user file) file;
                  StorageGetPublicUrl (filePath user file)]
  | None => []
  end.

Definition uploaded_bucket (st : State) (user : User.t) (w : World)
    : gmap jsstring File :=
  match avatarFile st with
  | Some file => <[filePath user file := file]> (avatars w)
  | None => avatars w
  end.

(** The requests that write: uploads and upserts. *)
Definition is_write (c : Call) : bool := is_upload c || is_upsert c.

(** An entry as [handleChange] leaves it: trimmed, without a comma. *)
Definition clean_entry (h : jsstring) : Prop := trim h = h /\ comma ∉ h.

Definition slash : N := 47.

(** Modelled from the spec: the bucket's access policy "restricts writes
    to the path segment matching the authenticated owner id".  The
    migration states it as [(storage.foldername(name))[1] = auth.uid()],
    for INSERT and for UPDATE; [storage.foldername] is the platform's
    function that gives the parts of the name between slashes, but the
    last. *)
Definition foldername (nm : jsstring) : list jsstring :=
  removelast (split slash nm).

Definition may_write (uid : jsstring) (nm : jsstring) : bool :=
  match head (foldername nm) with
  | Some folder => bool_decide (folder = uid)
  | None => false
  end.

(** A backend of [U1] whose table refuses every upsert. *)
Definition row_refused : Err :=
  PostgrestError (js "new row violates row-level security policy").

Definition refusing_table_world : World :=
  {| auth_user := Some u1; profiles := ∅; avatars := ∅;
     select_fault := fun _ => None; upsert_fault := fun _ => Some row_refused;
     upload_fault := fun _ _ => None; public_url := bucket_url;
     calls := []; console := [] |}.

(** A picture of another extension. *)
Definition scan : File :=
  {| name := js "scan.JPG"; bytes := [255; 216; 255] |}.

(** Two pictures whose names have no dot. *)
Definition photo : File :=
  {| name := js "photo"; bytes := [137; 80; 78; 71] |}.

Definition selfie : File :=
  {| name := js "selfie"; bytes := [137; 80; 78; 71] |}.

(** The returning user picks the scan instead. *)
Definition ada_picks_scan : State :=
  handleFileChange (Some [scan]) ada_changes_picture.

(** A draft with three hobbies typed in. *)
Definition ada_with_hobbies : State :=
  handleChange hobbies_input (js "chess, reading,  hiking ") ada_draft.

(** A backend of [U1] whose table accepts upserts and refuses selects. *)
Definition select_refused : Err :=
  PostgrestError (js "permission denied for table profiles").

Definition unreadable_table_world : World :=
  {| auth_user := Some u1; profiles := ∅; avatars := ∅;
     select_fault := fun _ => Some select_refused;
     upsert_fault := fun _ => None;
     upload_fault := fun _ _ => None; public_url := bucket_url;
     calls := []; console := [] |}.

(** * Properties *)

(** ** Splitting and trimming *)

Section Split.
Variable sep : N.

Lemma split_nonempty s : split sep s <> [].
Proof.
  destruct s as [|c r]; simpl; [done|].
  destruct (c =? sep); [done|]. by destruct (split sep r).
Qed.

Lemma join_cons_char c seg segs :
  join sep ((c :: seg) :: segs) = c :: join sep (seg :: segs).
Proof. by destruct segs. Qed.

(** Putting the separator back between the segments gives the text. *)
Lemma join_split s : join sep (split sep s) = s.
Proof.
  induction s as [|c r IH]; simpl; [done|].
  destruct (N.eqb_spec c sep) as [->|Hne].
  - pose proof (split_nonempty r) as Hr.
    destruct (split sep r) as [|seg segs]; [done|].
    simpl in *. by rewrite IH.
  - pose proof (split_nonempty r) as Hr.
    destruct (split sep r) as [|seg segs]; [done|].
    rewrite join_cons_char. by rewrite IH.
Qed.

(** No segment holds the separator. *)
Lemma split_no_sep s : Forall (fun seg => sep ∉ seg) (split sep s).
Proof.
  induction s as [|c r IH]; simpl.
  - repeat constructor. by intros ?%elem_of_nil.
  - destruct (N.eqb_spec c sep) as [->|Hne].
    + constructor; [by intros ?%elem_of_nil|done].
    + destruct (split sep r) as [|seg segs].
      * repeat constructor. intros ?%list_elem_of_singleton. congruence.
      * inversion IH as [|? ? Hseg Hsegs]; subst.
        constructor; [|done].
        intros [?|?]%elem_of_cons; [congruence|done].
Qed.

(** The two facts above determine the segments. *)
Lemma split_unique segs s :
  segs <> [] -> join sep segs = s -> Forall (fun seg => sep ∉ seg) segs ->
  segs = split sep s.
Proof.
  revert s. induction segs as [|seg rest IH]; intros s Hne Hjoin Hall; [done|].
  inversion Hall as [|? ? Hseg Hrest]; subst. clear Hne Hall.
  induction seg as [|c seg IHseg].
  - destruct rest as [|seg' rest']; [done|].
    simpl. rewrite N.eqb_refl. f_equal. by apply IH.
  - rewrite join_cons_char. cbn [split].
    destruct (N.eqb_spec c sep) as [->|Hc].
    { exfalso. apply Hseg. by left. }
    rewrite <- IHseg; [done|].
    intros Hin. apply Hseg. by right.
Qed.

(** There is one segment more than there are separators. *)
Lemma length_split s :
  length (split sep s) = S (length (filter (fun c => c = sep) s)).
Proof.
  induction s as [|c r IH]; simpl; [done|].
  destruct (N.eqb_spec c sep) as [->|Hne].
  - rewrite filter_cons_True by done. simpl. by rewrite IH.
  - rewrite filter_cons_False by done.
    pose proof (split_nonempty r).
    destruct (split sep r); [done|]. by simpl in *.
Qed.

Lemma split_one_segment s : sep ∉ s -> split sep s = [s].
Proof.
  intros Hs. symmetry. apply split_unique; [done|done|].
  by repeat constructor.
Qed.

(** The last segment is what follows the last separator. *)
Lemma last_split_app stem ext :
  sep ∉ ext -> last (split sep (stem ++ sep :: ext)) = Some ext.
Proof.
  intros Hext.
  induction stem as [|c stem IH]; cbn [app split].
  - rewrite N.eqb_refl, (split_one_segment ext Hext). done.
  - pose proof (length_split (stem ++ sep :: ext)) as Hlen.
    rewrite filter_app, filter_cons_True, length_app in Hlen by done.
    destruct (split sep (stem ++ sep :: ext)) as [|seg [|seg' segs]];
      simpl in Hlen; [lia|lia|].
    by destruct (c =? sep).
Qed.

End Split.

Section Trim.

Lemma trimStart_all l : Forall whitespace l -> trimStart l = [].
Proof.
  induction 1 as [|c l Hc _ IH]; simpl; [done|].
  unfold whitespace in Hc. by rewrite Hc.
Qed.

Lemma trimStart_app l s : Forall whitespace l -> trimStart (l ++ s) = trimStart s.
Proof.
  induction 1 as [|c l Hc _ IH]; simpl; [done|].
  unfold whitespace in Hc. by rewrite Hc.
Qed.

Lemma trimStart_id s :
  (forall c, head s = Some c -> ~ whitespace c) -> trimStart s = s.
Proof.
  destruct s as [|c s]; simpl; [done|]. intros H.
  specialize (H c eq_refl). unfold whitespace in H.
  by destruct (is_whitespace c).
Qed.

Lemma trimStart_spec s :
  exists l, s = l ++ trimStart s /\ Forall whitespace l /\
            (forall c, head (trimStart s) = Some c -> ~ whitespace c).
Proof.
  induction s as [|c s (l & Hs & Hl & Hhd)]; simpl.
  - exists []. by repeat split.
  - destruct (is_whitespace c) eqn:Hc.
    + exists (c :: l). repeat split; [by rewrite Hs at 1|by constructor|done].
    + exists []. repeat split; [done|].
      intros c' [= <-]. unfold whitespace. by rewrite Hc.
Qed.

Lemma trimEnd_spec s :
  exists r, s = trimEnd s ++ r /\ Forall whitespace r /\
            (forall c, last (trimEnd s) = Some c -> ~ whitespace c).
Proof.
  unfold trimEnd.
  destruct (trimStart_spec (reverse s)) as (l & Hs & Hl & Hhd).
  exists (reverse l). repeat split.
  - rewrite <- reverse_app, <- Hs. by rewrite reverse_involutive.
  - by apply Forall_reverse.
  - intros c. rewrite last_reverse. apply Hhd.
Qed.

Lemma trimEnd_app s r : Forall whitespace r -> trimEnd (s ++ r) = trimEnd s.
Proof.
  intros Hr. unfold trimEnd.
  rewrite reverse_app, trimStart_app; [done|]. by apply Forall_reverse.
Qed.

Lemma trimEnd_id s :
  (forall c, last s = Some c -> ~ whitespace c) -> trimEnd s = s.
Proof.
  intros H. unfold trimEnd. rewrite trimStart_id.
  - apply reverse_involutive.
  - intros c. rewrite head_reverse. apply H.
Qed.

(** Cutting at the end leaves the first code unit in place. *)
Lemma head_trimEnd s c :
  head (trimEnd s) = Some c -> head s = Some c.
Proof.
  destruct (trimEnd_spec s) as (r & Hs & _).
  rewrite Hs at 2. destruct (trimEnd s); [done|]. by simpl.
Qed.

Lemma trim_trimmed_of s : trimmed_of s (trim s).
Proof.
  unfold trim.
  destruct (trimStart_spec s) as (l & Hs & Hl & Hhd).
  destruct (trimEnd_spec (trimStart s)) as (r & Ht & Hr & Hlast).
  exists l, r. repeat split; [|done|done| |done].
  - by rewrite <- Ht.
  - intros c Hc. apply Hhd. by apply head_trimEnd.
Qed.

(** [trimmed_of] has one solution. *)
Lemma trimmed_of_unique s t : trimmed_of s t -> t = trim s.
Proof.
  intros (l & r & -> & Hl & Hr & Hhd & Hlast).
  unfold trim. rewrite trimStart_app by done.
  destruct t as [|c t'].
  - simpl. rewrite trimStart_all by done. done.
  - rewrite (trimStart_id ((c :: t') ++ r)) by (simpl; exact Hhd).
    rewrite trimEnd_app by done. by rewrite trimEnd_id.
Qed.

End Trim.

(** ** Update Field on [hobbies] *)

Lemma split_comma_segments text : comma_segments text (split comma text).
Proof.
  split; [apply split_nonempty|].
  split; [apply join_split|apply split_no_sep].
Qed.

Lemma comma_segments_unique text segs :
  comma_segments text segs -> segs = split comma text.
Proof. intros (Hne & Hjoin & Hall). by apply split_unique. Qed.

Lemma Forall2_trimmed_of_map segs : Forall2 trimmed_of segs (map trim segs).
Proof.
  induction segs as [|seg segs IH]; simpl; constructor; [|done].
  apply trim_trimmed_of.
Qed.

Lemma Forall2_trimmed_of_unique segs hs :
  Forall2 trimmed_of segs hs -> hs = map trim segs.
Proof.
  induction 1 as [|seg h segs hs Hh _ IH]; simpl; [done|].
  by rewrite (trimmed_of_unique _ _ Hh), IH.
Qed.

Lemma split_and_trimmed_unique text hs :
  split_and_trimmed text hs -> hs = map trim (split comma text).
Proof.
  intros (segs & Hsegs & Hhs).
  rewrite <- (comma_segments_unique _ _ Hsegs).
  by apply Forall2_trimmed_of_unique.
Qed.

(** The other cells of the state and the other fields of the draft are
    not touched by a change of the hobbies text. *)
Lemma handleChange_hobbies_frame value st :
  let st' := handleChange hobbies_input value st in
  isEditing st' = isEditing st /\ error st' = error st /\
  avatarFile st' = avatarFile st /\
  set_hobbies [] (profile st') = set_hobbies [] (profile st).
Proof. by repeat split. Qed.

(** C2. Update Field on hobbies stores the sequence obtained by splitting
    the text on commas and trimming the surrounding whitespace of every
    segment, in the order of the text: the stored sequence satisfies
    [split_and_trimmed], and it is the only sequence that does.  The text
    "chess, reading,  hiking " gives chess, reading, hiking. *)
Theorem hobbies_change_splits_and_trims (value : jsstring) (st : State) :
  (exists hs,
      hobbies (profile (handleChange hobbies_input value st)) = Some hs /\
      split_and_trimmed value hs /\
      (forall hs', split_and_trimmed value hs' -> hs' = hs)) /\
  hobbies (profile (handleChange hobbies_input
                      (js "chess, reading,  hiking ") st))
  = Some [js "chess"; js "reading"; js "hiking"].
Proof.
  split; [|reflexivity].
  exists (map trim (split comma value)). split; [reflexivity|]. split.
  - exists (split comma value). split.
    + apply split_comma_segments.
    + apply Forall2_trimmed_of_map.
  - apply split_and_trimmed_unique.
Qed.

(** C3. Update Field on hobbies with the empty text stores a sequence of
    one element, the empty string. *)
Theorem hobbies_change_empty_text (st : State) :
  hobbies (profile (handleChange hobbies_input (js "") st)) = Some [js ""] /\
  hobbies (profile (handleChange hobbies_input (js "") st)) <> Some [].
Proof. split; [reflexivity|discriminate]. Qed.

(** ** The hobbies cell of the Read-Only View *)

(** C4, as stated, fails.  Clearing the hobbies text of the form leaves
    the sequence with one empty string.  It has no non-empty entry, and
    the view still shows it as a list, of one empty item. *)
Lemma hobbies_cell_shows_empty_entry :
  let p := profile (handleChange hobbies_input (js "") initial_state) in
  meaningful_entries (hobbies p) = [] /\
  ViewProfile.hobbies_cell p = ViewProfile.Items [js ""] /\
  ViewProfile.hobbies_cell p <> ViewProfile.Text no_hobbies.
Proof. split; [reflexivity|]. split; [reflexivity|discriminate]. Qed.

(** C4, amended. The view shows the fallback text exactly when the
    hobbies are absent or the sequence has no element; a sequence with at
    least one element, whatever its entries, is shown as the list of
    those entries in order. *)
Theorem hobbies_cell_fallback_iff_no_element (p : UserProfile) :
  (ViewProfile.hobbies_cell p = ViewProfile.Text no_hobbies
   <-> length (default [] (hobbies p)) = 0%nat) /\
  ViewProfile.hobbies_cell p
  = match default [] (hobbies p) with
    | [] => ViewProfile.Text no_hobbies
    | h :: hs => ViewProfile.Items (h :: hs)
    end.
Proof.
  unfold ViewProfile.hobbies_cell.
  destruct (hobbies p) as [[|h hs]|]; simpl; try rewrite map_id;
    (split; [split; [done|intros; done || discriminate]|done]).
Qed.

(** ** Load *)

Section Load.
Variables (st : State) (w : World).

Lemma loadProfile_no_user :
  auth_user w = None ->
  loadProfile st w = (Resolved st, log AuthGetUser w).
Proof. intros H. unfold loadProfile, bind, auth_getUser. by rewrite H. Qed.

Lemma loadProfile_found user row :
  auth_user w = Some user ->
  select_fault w (User.id user) = None ->
  profiles w !! User.id user = Some row ->
  loadProfile st w
  = (Resolved (setIsEditing false (setProfile row st)),
     log (ProfilesSelectSingle (User.id user)) (log AuthGetUser w)).
Proof.
  intros Hu Hf Hrow.
  unfold loadProfile, bind, auth_getUser, profiles_select_single.
  rewrite Hu. simpl. by rewrite Hf, Hrow.
Qed.

Lemma loadProfile_not_found user :
  auth_user w = Some user ->
  select_fault w (User.id user) = None ->
  profiles w !! User.id user = None ->
  loadProfile st w
  = (Resolved st,
     print_error no_rows
       (log (ProfilesSelectSingle (User.id user)) (log AuthGetUser w))).
Proof.
  intros Hu Hf Hrow.
  unfold loadProfile, bind, auth_getUser, profiles_select_single.
  rewrite Hu. simpl. by rewrite Hf, Hrow.
Qed.

Lemma loadProfile_fault user e :
  auth_user w = Some user ->
  select_fault w (User.id user) = Some e ->
  loadProfile st w
  = (Resolved st,
     print_error e
       (log (ProfilesSelectSingle (User.id user)) (log AuthGetUser w))).
Proof.
  intros Hu Hf.
  unfold loadProfile, bind, auth_getUser, profiles_select_single.
  rewrite Hu. simpl. by rewrite Hf.
Qed.

End Load.

(** Load never rejects, writes to neither store, and leaves the error
    cell and the pending file alone. *)
Lemma loadProfile_frame st w :
  exists st' w',
    loadProfile st w = (Resolved st', w') /\
    error st' = error st /\ avatarFile st' = avatarFile st /\
    auth_user w' = auth_user w /\ profiles w' = profiles w /\
    avatars w' = avatars w /\ same_services w w' /\
    exists cs, calls w' = calls w ++ AuthGetUser :: cs /\
               forall c, c ∈ cs -> exists owner, c = ProfilesSelectSingle owner.
Proof.
  assert (Hsel : forall owner c,
             c ∈ [ProfilesSelectSingle owner] ->
             exists owner', c = ProfilesSelectSingle owner').
  { intros owner c ->%list_elem_of_singleton. by eexists. }
  destruct (auth_user w) as [user|] eqn:Hu.
  - destruct (select_fault w (User.id user)) as [e|] eqn:Hf;
      [|destruct (profiles w !! User.id user) as [row|] eqn:Hrow].
    + eexists _, _. split; [by eapply loadProfile_fault|].
      do 5 (split; [done|]). split; [by repeat split|].
      exists [ProfilesSelectSingle (User.id user)]. simpl.
      rewrite <- app_assoc. eauto.
    + eexists _, _. split; [by eapply loadProfile_found|].
      do 5 (split; [done|]). split; [by repeat split|].
      exists [ProfilesSelectSingle (User.id user)]. simpl.
      rewrite <- app_assoc. eauto.
    + eexists _, _. split; [by eapply loadProfile_not_found|].
      do 5 (split; [done|]). split; [by repeat split|].
      exists [ProfilesSelectSingle (User.id user)]. simpl.
      rewrite <- app_assoc. eauto.
  - eexists _, _. split; [by apply loadProfile_no_user|].
    do 5 (split; [done|]). split; [by repeat split|].
    exists []. split; [done|]. by intros c ?%elem_of_nil.
Qed.

(** C8. When the user is resolved and the table has no row for them,
    Load resolves and hands back the state it was given: the mode, the
    draft and the error text are as before, and the error went to the
    console.  At mount that state is the initial one: edit mode, every
    field at its default, no error text. *)
Theorem load_without_row (st : State) (w : World) (user : User.t) :
  auth_user w = Some user ->
  select_fault w (User.id user) = None ->
  profiles w !! User.id user = None ->
  (exists w',
      loadProfile st w = (Resolved st, w') /\
      console w' = console w ++ [no_rows]) /\
  (exists st' w',
      step Mount initial_state w = (Resolved st', w') /\
      isEditing st' = true /\ profile st' = initial_profile /\
      error st' = js "").
Proof.
  intros Hu Hf Hrow. split.
  - eexists. split; [by apply loadProfile_not_found|done].
  - eexists _, _.
    split; [unfold step; simpl; by apply loadProfile_not_found|done].
Qed.

(** ** Save *)

Section Upload.
Variables (file : File) (w : World).

Lemma handleAvatarUpload_no_user :
  auth_user w = None ->
  handleAvatarUpload file w = (Resolved None, log AuthGetUser w).
Proof.
  intros Hu. unfold handleAvatarUpload, bind, auth_getUser. by rewrite Hu.
Qed.

Lemma handleAvatarUpload_rejected user e :
  auth_user w = Some user ->
  upload_fault w (filePath user file) file = Some e ->
  handleAvatarUpload file w
  = (Rejected e,
     log (StorageUpload (filePath user file) file) (log AuthGetUser w)).
Proof.
  intros Hu Hf.
  unfold handleAvatarUpload, bind, auth_getUser, storage_upload.
  rewrite Hu. simpl. by rewrite Hf.
Qed.

Lemma handleAvatarUpload_resolved user :
  auth_user w = Some user ->
  upload_fault w (filePath user file) file = None ->
  handleAvatarUpload file w
  = (Resolved (Some (public_url w (filePath user file))),
     log (StorageGetPublicUrl (filePath user file))
       (set_avatars (<[filePath user file := file]> (avatars w))
          (log (StorageUpload (filePath user file) file)
             (log AuthGetUser w)))).
Proof.
  intros Hu Hf.
  unfold handleAvatarUpload, bind, auth_getUser, storage_upload,
    storage_getPublicUrl.
  rewrite Hu. simpl. by rewrite Hf.
Qed.

End Upload.

Section Save.
Variables (st : State) (w : World).

Lemma handleSubmit_try_no_user :
  auth_user w = None ->
  handleSubmit_try st w = (Rejected not_authenticated, log AuthGetUser w).
Proof.
  intros Hu. unfold handleSubmit_try, bind, auth_getUser. by rewrite Hu.
Qed.

Lemma handleSubmit_try_upload_rejected user file e :
  auth_user w = Some user ->
  avatarFile st = Some file ->
  upload_fault w (filePath user file) file = Some e ->
  handleSubmit_try st w
  = (Rejected e,
     log (StorageUpload (filePath user file) file)
       (log AuthGetUser (log AuthGetUser w))).
Proof.
  intros Hu Hfile Hf.
  unfold handleSubmit_try, bind at 1 2. unfold auth_getUser at 1.
  rewrite Hu, Hfile.
  by rewrite (handleAvatarUpload_rejected file (log AuthGetUser w) user e).
Qed.

(** The world when the upsert is about to be sent. *)
Lemma handleSubmit_try_before_upsert user :
  auth_user w = Some user ->
  (forall file, avatarFile st = Some file ->
                upload_fault w (filePath user file) file = None) ->
  exists w0 cs,
    handleSubmit_try st w
    = (let* upsertError :=
         profiles_upsert
           (upsert_row (profile st) user (resolved_avatar_url st w user)) in
       match upsertError with
       | Some e => throw e
       | None => loadProfile (setIsEditing false st)
       end) w0 /\
    auth_user w0 = auth_user w /\ profiles w0 = profiles w /\
    select_fault w0 = select_fault w /\ upsert_fault w0 = upsert_fault w /\
    upload_fault w0 = upload_fault w /\ public_url w0 = public_url w /\
    console w0 = console w /\
    avatars w0 = match avatarFile st with
                 | Some file => <[filePath user file := file]> (avatars w)
                 | None => avatars w
                 end /\
    issued w w0 (AuthGetUser :: cs) /\
    cs = match avatarFile st with
         | Some file => [AuthGetUser;
                         StorageUpload (filePath user file) file;
                         StorageGetPublicUrl (filePath user file)]
         | None => []
         end.
Proof.
  intros Hu Hup.
  unfold handleSubmit_try, resolved_avatar_url, issued.
  unfold bind at 1 2. unfold auth_getUser at 1. rewrite Hu.
  destruct (avatarFile st) as [file|] eqn:Hfile.
  - rewrite (handleAvatarUpload_resolved file (log AuthGetUser w) user);
      [|done|by apply Hup].
    eexists _, _. split; [reflexivity|].
    do 8 (split; [by simpl|]). split; [|reflexivity].
    simpl. by rewrite <- !app_assoc.
  - eexists _, _. split; [reflexivity|].
    do 8 (split; [by simpl|]). by split.
Qed.

End Save.

Section SaveOutcomes.
Variables (st : State) (w : World).

Lemma handleSubmit_no_user :
  auth_user w = None ->
  handleSubmit st w
  = (Resolved (setError (message not_authenticated) st), log AuthGetUser w).
Proof.
  intros Hu. unfold handleSubmit, try_catch.
  by rewrite handleSubmit_try_no_user.
Qed.

Lemma handleSubmit_upload_rejected user file e :
  auth_user w = Some user ->
  avatarFile st = Some file ->
  upload_fault w (filePath user file) file = Some e ->
  handleSubmit st w
  = (Resolved (setError (message e) st),
     log (StorageUpload (filePath user file) file)
       (log AuthGetUser (log AuthGetUser w))).
Proof.
  intros Hu Hfile Hf. unfold handleSubmit, try_catch.
  by rewrite (handleSubmit_try_upload_rejected _ w user file e).
Qed.

(** Once the user is resolved and the upload, if any, went through,
    the upsert is sent; what follows depends on its answer. *)
Lemma handleSubmit_upsert_sent user :
  auth_user w = Some user ->
  (forall file, avatarFile st = Some file ->
                upload_fault w (filePath user file) file = None) ->
  let row := upsert_row (profile st) user (resolved_avatar_url st w user) in
  exists w0 cs,
    handleSubmit st w
    = match upsert_fault w row with
      | Some e =>
          (Resolved (setError (message e) st), log (ProfilesUpsert row) w0)
      | None =>
          loadProfile (setIsEditing false (setError (js "") st))
            (set_profiles (<[User.id user := row]> (profiles w))
               (log (ProfilesUpsert row) w0))
      end /\
    auth_user w0 = auth_user w /\ profiles w0 = profiles w /\
    select_fault w0 = select_fault w /\ console w0 = console w /\
    avatars w0 = match avatarFile st with
                 | Some file => <[filePath user file := file]> (avatars w)
                 | None => avatars w
                 end /\
    issued w w0 (AuthGetUser :: cs) /\
    cs = match avatarFile st with
         | Some file => [AuthGetUser;
                         StorageUpload (filePath user file) file;
                         StorageGetPublicUrl (filePath user file)]
         | None => []
         end /\
    same_services w w0.
Proof.
  intros Hu Hup row.
  destruct (handleSubmit_try_before_upsert (setError (js "") st) w user Hu Hup)
    as (w0 & cs & Htry & Hau & Hpr & Hsel & Hups & Hupl & Hurl & Hcon & Hav & Hcs & Hcs').
  exists w0, cs. split; [|by repeat split].
  unfold handleSubmit, try_catch. rewrite Htry.
  unfold bind, profiles_upsert. simpl profile.
  change (resolved_avatar_url (setError (js "") st) w user)
    with (resolved_avatar_url st w user).
  fold row. rewrite Hups, Hpr.
  destruct (upsert_fault w row) as [e|]; [done|].
  change (id row) with (User.id user).
  destruct (loadProfile_frame (setIsEditing false (setError (js "") st))
              (set_profiles (<[User.id user := row]> (profiles w))
                 (log (ProfilesUpsert row) w0)))
    as (st' & w' & -> & _).
  done.
Qed.

End SaveOutcomes.

(** The failures of [SaveFailure] are the rejections of the [try] block,
    and there are no others. *)
Lemma handleSubmit_try_rejects_iff st w e :
  (exists w', handleSubmit_try st w = (Rejected e, w')) <-> SaveFailure st w e.
Proof.
  split.
  - intros (w' & Hrej).
    destruct (auth_user w) as [user|] eqn:Hu.
    + destruct (avatarFile st) as [file|] eqn:Hfile.
      * destruct (upload_fault w (filePath user file) file) as [e'|] eqn:Hf.
        { rewrite (handleSubmit_try_upload_rejected st w user file e') in Hrej
            by done.
          injection Hrej as <- _. by eapply UploadFailure. }
        destruct (handleSubmit_try_before_upsert st w user) as
          (w0 & cs & Htry & _ & _ & _ & Hups & _); [done| |].
        { intros f. rewrite Hfile. by intros [= <-]. }
        rewrite Htry in Hrej. unfold bind, profiles_upsert in Hrej.
        rewrite Hups in Hrej.
        destruct (upsert_fault w _) as [e'|] eqn:Hupsert.
        { injection Hrej as <- _. eapply PersistFailure; [done| |done].
          intros f. rewrite Hfile. by intros [= <-]. }
        destruct (loadProfile_frame (setIsEditing false st)
          (set_profiles
             (<[id (upsert_row (profile st) user (resolved_avatar_url st w user))
                := upsert_row (profile st) user (resolved_avatar_url st w user)]>
                (profiles w0))
             (log (ProfilesUpsert
                     (upsert_row (profile st) user (resolved_avatar_url st w user)))
                w0)))
          as (st' & w'' & Hload & _).
        rewrite Hload in Hrej. discriminate.
      * destruct (handleSubmit_try_before_upsert st w user) as
          (w0 & cs & Htry & _ & _ & _ & Hups & _); [done| |].
        { intros f. by rewrite Hfile. }
        rewrite Htry in Hrej. unfold bind, profiles_upsert in Hrej.
        rewrite Hups in Hrej.
        destruct (upsert_fault w _) as [e'|] eqn:Hupsert.
        { injection Hrej as <- _. eapply PersistFailure; [done| |done].
          intros f. by rewrite Hfile. }
        destruct (loadProfile_frame (setIsEditing false st)
          (set_profiles
             (<[id (upsert_row (profile st) user (resolved_avatar_url st w user))
                := upsert_row (profile st) user (resolved_avatar_url st w user)]>
                (profiles w0))
             (log (ProfilesUpsert
                     (upsert_row (profile st) user (resolved_avatar_url st w user)))
                w0)))
          as (st' & w'' & Hload & _).
        rewrite Hload in Hrej. discriminate.
    + rewrite handleSubmit_try_no_user in Hrej by done.
      injection Hrej as <- _. by apply NotAuthenticated.
  - intros [Hu|user file e' Hu Hfile Hf|user e' Hu Hup Hupsert].
    + eexists. by apply handleSubmit_try_no_user.
    + eexists. by eapply handleSubmit_try_upload_rejected.
    + destruct (handleSubmit_try_before_upsert st w user Hu Hup) as
        (w0 & cs & Htry & _ & _ & _ & Hups & _).
      eexists. rewrite Htry. unfold bind, profiles_upsert.
      rewrite Hups, Hupsert. reflexivity.
Qed.

(** C5. With no signed-in user, Save reports "No user logged in", and
    the only request it issues is the one that asks for the user: no
    upload, no upsert, no select; both stores are as before. *)
Theorem save_without_user (st : State) (w : World) :
  auth_user w = None ->
  exists st' w',
    handleSubmit st w = (Resolved st', w') /\
    SaveFailure st w not_authenticated /\
    error st' = js "No user logged in" /\
    issued w w' [AuthGetUser] /\
    (forall cs, issued w w' cs -> Forall (fun c => is_store_call c = false) cs) /\
    profiles w' = profiles w /\ avatars w' = avatars w.
Proof.
  intros Hu. eexists _, _.
  split; [by apply handleSubmit_no_user|].
  split; [by apply NotAuthenticated|].
  split; [done|]. split; [done|]. split; [|done].
  intros cs Hcs. unfold issued in Hcs. simpl in Hcs.
  apply app_inv_head in Hcs as <-. by repeat constructor.
Qed.

(** C6. When the upload of the pending file fails, Save stops there:
    the requests it issued are the two that ask for the user and the
    upload, none of them an upsert; the table, and with it the row of
    the user and its avatar URL, is as before, and the error cell holds
    the message of the upload error. *)
Theorem save_upload_failure (st : State) (w : World)
    (user : User.t) (file : File) (e : Err) :
  auth_user w = Some user ->
  avatarFile st = Some file ->
  upload_fault w (filePath user file) file = Some e ->
  exists st' w',
    handleSubmit st w = (Resolved st', w') /\
    issued w w' [AuthGetUser; AuthGetUser;
                 StorageUpload (filePath user file) file] /\
    (forall cs, issued w w' cs -> Forall (fun c => is_upsert c = false) cs) /\
    profiles w' = profiles w /\
    avatar_url <$> (profiles w' !! User.id user)
    = avatar_url <$> (profiles w !! User.id user) /\
    error st' = message e.
Proof.
  intros Hu Hfile Hf. eexists _, _.
  split; [by eapply handleSubmit_upload_rejected|].
  split; [unfold issued; simpl; by rewrite <- !app_assoc|].
  split; [|done].
  intros cs Hcs. unfold issued in Hcs. simpl in Hcs.
  rewrite <- !app_assoc in Hcs.
  apply app_inv_head in Hcs as <-. by repeat constructor.
Qed.

(** C7. Whichever way a Save fails, the handler resolves with the state
    it started from but for the error cell, which holds the message of
    the failure: the mode is unchanged, so a Save made from the edit
    form leaves it in edit mode, and the draft is unchanged. *)
Theorem failed_save_keeps_draft (st : State) (w : World) (e : Err) :
  SaveFailure st w e ->
  exists st' w',
    handleSubmit st w = (Resolved st', w') /\
    st' = setError (message e) st /\
    isEditing st' = isEditing st /\
    (enabled Submit st = true -> isEditing st' = true) /\
    profile st' = profile st /\
    error st' = message e.
Proof.
  assert (Hmode : enabled Submit st = true -> isEditing st = true).
  { simpl. by intros [? _]%andb_prop. }
  intros [Hu|user file e' Hu Hfile Hf|user e' Hu Hup Hupsert].
  - eexists _, _. split; [by apply handleSubmit_no_user|done].
  - eexists _, _. split; [by eapply handleSubmit_upload_rejected|done].
  - destruct (handleSubmit_upsert_sent st w user Hu Hup)
      as (w0 & cs & Hsub & _).
    rewrite Hupsert in Hsub.
    eexists _, _. split; [exact Hsub|done].
Qed.

(** A Save whose requests all go through: the state and the world it
    ends in. *)
Lemma handleSubmit_saved st w user :
  auth_user w = Some user ->
  (forall file, avatarFile st = Some file ->
                upload_fault w (filePath user file) file = None) ->
  let row := upsert_row (profile st) user (resolved_avatar_url st w user) in
  upsert_fault w row = None ->
  select_fault w (User.id user) = None ->
  exists w',
    handleSubmit st w
    = (Resolved (setIsEditing false (setProfile row (setError (js "") st))), w') /\
    auth_user w' = auth_user w /\ select_fault w' = select_fault w /\
    profiles w' = <[User.id user := row]> (profiles w) /\
    avatars w' = match avatarFile st with
                 | Some file => <[filePath user file := file]> (avatars w)
                 | None => avatars w
                 end.
Proof.
  intros Hu Hup row Hupsert Hsel.
  destruct (handleSubmit_upsert_sent st w user Hu Hup)
    as (w0 & cs & Hsub & Hau & Hpr & Hsel0 & _ & Hav & _).
  fold row in Hsub. rewrite Hupsert in Hsub.
  eexists. split.
  - rewrite Hsub. erewrite loadProfile_found; [reflexivity| | |].
    + simpl. by rewrite Hau.
    + simpl. by rewrite Hsel0.
    + simpl. apply lookup_insert_eq.
  - by simpl.
Qed.

(** C1. A Save of a draft whose required fields are set, made from the
    edit form and answered without fault by the services, followed by
    Load, gives the profile that was sent: the draft with the id of the
    owner and the resolved avatar URL.  Every other field is the draft's;
    the id is the owner's (and so the draft's, when the draft carries
    it); the avatar URL is the public URL of the uploaded object when a
    file was pending, and the draft's otherwise.  The row in the table is
    that profile, and a later Load by either component reads it back. *)
Theorem save_then_load (st : State) (w : World) (user : User.t) :
  enabled Submit st = true ->
  auth_user w = Some user ->
  (forall file, avatarFile st = Some file ->
                upload_fault w (filePath user file) file = None) ->
  upsert_fault w (upsert_row (profile st) user (resolved_avatar_url st w user))
  = None ->
  select_fault w (User.id user) = None ->
  exists st' w',
    step Submit st w = (Resolved st', w') /\
    profile st' = upsert_row (profile st) user (resolved_avatar_url st w user) /\
    (first_name (profile st') = first_name (profile st) /\
     last_name (profile st') = last_name (profile st) /\
     date_of_birth (profile st') = date_of_birth (profile st) /\
     country (profile st') = country (profile st) /\
     religion (profile st') = religion (profile st) /\
     blood_group (profile st') = blood_group (profile st) /\
     marital_status (profile st') = marital_status (profile st) /\
     institution (profile st') = institution (profile st) /\
     hobbies (profile st') = hobbies (profile st)) /\
    id (profile st') = User.id user /\
    (id (profile st) = User.id user -> id (profile st') = id (profile st)) /\
    (forall file, avatarFile st = Some file ->
                  avatar_url (profile st')
                  = Some (public_url w (filePath user file))) /\
    (avatarFile st = None -> avatar_url (profile st') = avatar_url (profile st)) /\
    isEditing st' = false /\ error st' = js "" /\
    profiles w' !! User.id user = Some (profile st') /\
    (forall st0, exists w'',
        loadProfile st0 w'
        = (Resolved (setIsEditing false (setProfile (profile st') st0)), w'')) /\
    (forall v0, exists w'',
        ViewProfile.loadProfile v0 w' = (Resolved (Some (profile st')), w'')).
Proof.
  intros Hen Hu Hup Hupsert Hsel.
  destruct (handleSubmit_saved st w user Hu Hup Hupsert Hsel)
    as (w' & Hsub & Hau & Hsel' & Hpr & _).
  eexists _, w'. split.
  { unfold step. rewrite Hen. exact Hsub. }
  assert (Hrow : profiles w' !! User.id user
                 = Some (upsert_row (profile st) user
                           (resolved_avatar_url st w user))).
  { rewrite Hpr. apply lookup_insert_eq. }
  simpl. split; [done|]. split; [done|]. split; [done|].
  split; [by intros <-|].
  split; [intros file Hfile; unfold resolved_avatar_url; by rewrite Hfile|].
  split; [intros Hfile; unfold resolved_avatar_url; by rewrite Hfile|].
  split; [done|]. split; [done|]. split; [done|]. split.
  - intros st0. eexists. eapply loadProfile_found; [|by rewrite Hsel'|done].
    by rewrite Hau.
  - intros v0. eexists.
    unfold ViewProfile.loadProfile, bind, auth_getUser, profiles_select_single.
    rewrite Hau, Hu. simpl. by rewrite Hsel', Hsel, Hrow.
Qed.

(** Whatever its outcome, Save resolves; it leaves the pending file, the
    session and the services as they were, and when a file is pending and
    a user is signed in it sends the upload of that file. *)
Lemma handleSubmit_frame st w :
  exists st' w',
    handleSubmit st w = (Resolved st', w') /\
    avatarFile st' = avatarFile st /\ same_services w w' /\
    forall user file,
      auth_user w = Some user -> avatarFile st = Some file ->
      (exists cs, issued w w' (AuthGetUser :: AuthGetUser ::
                               StorageUpload (filePath user file) file :: cs)) /\
      (upload_fault w (filePath user file) file = None ->
       avatars w' = <[filePath user file := file]> (avatars w)).
Proof.
  destruct (auth_user w) as [user|] eqn:Hu.
  2: { eexists _, _. split; [by apply handleSubmit_no_user|].
       split; [done|]. split; [by repeat split|]. done. }
  assert (Hcases :
    (exists file e, avatarFile st = Some file /\
                    upload_fault w (filePath user file) file = Some e) \/
    (forall file, avatarFile st = Some file ->
                  upload_fault w (filePath user file) file = None)).
  { destruct (avatarFile st) as [file|]; [|by right].
    destruct (upload_fault w (filePath user file) file) as [e|] eqn:Hf.
    - left. by exists file, e.
    - right. by intros ? [= <-]. }
  destruct Hcases as [(file & e & Hfile & Hf)|Hup].
  - eexists _, _. split; [by eapply handleSubmit_upload_rejected|].
    split; [done|]. split; [by repeat split|].
    intros user' file' [= <-] Hfile'.
    rewrite Hfile in Hfile'. injection Hfile' as <-. split.
    + exists []. unfold issued. simpl. by rewrite <- !app_assoc.
    + congruence.
  - destruct (handleSubmit_upsert_sent st w user Hu Hup)
      as (w0 & cs & Hsub & _ & _ & _ & _ & Hav & Hcs & Hcs' & Hsame).
    set (row := upsert_row (profile st) user (resolved_avatar_url st w user)) in *.
    assert (Hsent : forall w', same_services w w' ->
              avatars w' = avatars w0 ->
              (exists cs', calls w' = calls w0 ++ cs') ->
              forall user' file,
                Some user = Some user' -> avatarFile st = Some file ->
                (exists cs, issued w w' (AuthGetUser :: AuthGetUser ::
                              StorageUpload (filePath user' file) file :: cs)) /\
                (upload_fault w (filePath user' file) file = None ->
                 avatars w' = <[filePath user' file := file]> (avatars w))).
    { intros w' _ Hav' (cs' & Hcalls) user' file [= <-] Hfile.
      rewrite Hfile in Hav, Hcs'. subst cs. split.
      - eexists. unfold issued in *. rewrite Hcalls, Hcs.
        rewrite <- app_assoc. simpl. reflexivity.
      - intros _. by rewrite Hav'. }
    destruct Hsame as (Hau & Hsel & Hups & Hupl & Hurl).
    destruct (upsert_fault w row) as [e|].
    + eexists _, _. split; [exact Hsub|]. split; [done|].
      split; [by repeat split|].
      apply Hsent; [by repeat split|done|]. by exists [ProfilesUpsert row].
    + destruct (loadProfile_frame (setIsEditing false (setError (js "") st))
                  (set_profiles (<[User.id user := row]> (profiles w))
                     (log (ProfilesUpsert row) w0)))
        as (st' & w' & Hload & _ & Hfile' & _ & _ & Hav' & Hsame' & cs' & Hcalls & _).
      destruct Hsame' as (Hau' & Hsel' & Hups' & Hupl' & Hurl').
      simpl in *.
      assert (Hsame : same_services w w').
      { repeat split; congruence. }
      eexists _, _. split; [by rewrite Hsub|]. split; [done|].
      split; [done|].
      apply Hsent; [done|done|].
      eexists. rewrite Hcalls, <- app_assoc. reflexivity.
Qed.

(** ** The upload path *)

Lemma last_occurrence (c : N) (s : jsstring) :
  c ∈ s -> exists stem ext, s = stem ++ c :: ext /\ c ∉ ext.
Proof.
  induction s as [|x s IH]; [by intros ?%elem_of_nil|].
  intros Hin. destruct (decide (c ∈ s)) as [Hs|Hs].
  - destruct (IH Hs) as (stem & ext & -> & Hext).
    by exists (x :: stem), ext.
  - apply elem_of_cons in Hin as [->|?]; [|done].
    by exists [], s.
Qed.

(** For a name with an extension, [fileExt] is the extension. *)
Lemma fileExt_of_extension (file : File) (ext : jsstring) :
  extension_of (name file) ext -> fileExt file = Some ext.
Proof.
  intros (stem & Hname & Hext). unfold fileExt, pop. rewrite Hname.
  by apply last_split_app.
Qed.

(** For a name without a dot, [fileExt] is the whole name. *)
Lemma fileExt_without_dot (file : File) :
  dot ∉ name file -> fileExt file = Some (name file).
Proof. intros Hout. unfold fileExt, pop. by rewrite split_one_segment. Qed.

Lemma has_extension (nm : jsstring) :
  dot ∈ nm -> exists ext, extension_of nm ext.
Proof.
  intros (stem & ext & Hnm & Hext)%last_occurrence. exists ext. by exists stem.
Qed.

Lemma extension_needs_dot (nm ext : jsstring) :
  extension_of nm ext -> dot ∈ nm.
Proof.
  intros (stem & -> & _). apply elem_of_app. right. by left.
Qed.

Lemma fileExt_is_Some (file : File) : is_Some (fileExt file).
Proof.
  unfold fileExt, pop. pose proof (split_nonempty dot (name file)) as Hne.
  destruct (split dot (name file)) as [|seg segs] using rev_ind; [done|].
  rewrite last_snoc. by eexists.
Qed.

Lemma filePath_extension_of (user : User.t) (file : File) (ext : jsstring) :
  extension_of (name file) ext ->
  filePath user file = User.id user ++ js "/avatar." ++ ext.
Proof.
  intros Hext%fileExt_of_extension. unfold filePath. by rewrite Hext.
Qed.

(** Files of different extensions go to different paths. *)
Lemma filePath_inj_ext (user : User.t) (f1 f2 : File) :
  filePath user f1 = filePath user f2 -> fileExt f1 = fileExt f2.
Proof.
  destruct (fileExt_is_Some f1) as [e1 H1], (fileExt_is_Some f2) as [e2 H2].
  unfold filePath. rewrite H1, H2. cbn [template].
  intros Heq%app_inv_head%app_inv_head. by subst.
Qed.

(** C9, as stated, fails.  The returning user, whose portrait is at
    the path for "png", saves a picture named "scan.JPG": it goes to
    another path, the portrait stays, and the bucket holds two objects of
    the same owner.  And the path is not made of the owner and the
    extension alone: "photo" and "selfie" have no extension, and their
    paths differ. *)
Lemma avatar_path_not_reused_by_owner :
  (filePath u1 scan <> filePath u1 portrait /\
   avatars (snd (handleSubmit ada_picks_scan (returning_world None)))
   !! filePath u1 portrait = Some portrait /\
   avatars (snd (handleSubmit ada_picks_scan (returning_world None)))
   !! filePath u1 scan = Some scan /\
   size (avatars (snd (handleSubmit ada_picks_scan (returning_world None))))
   = 2%nat) /\
  (~ (exists ext, extension_of (name photo) ext) /\
   ~ (exists ext, extension_of (name selfie) ext) /\
   filePath u1 photo <> filePath u1 selfie).
Proof.
  split.
  - split; [discriminate|]. by vm_compute.
  - assert (Hno : forall nm, dot ∉ nm -> ~ (exists ext, extension_of nm ext)).
    { intros nm Hout (ext & Hext). by apply Hout, (extension_needs_dot nm ext). }
    split; [|split; [|discriminate]]; apply Hno; intros Hin;
      repeat (apply elem_of_cons in Hin as [Hin|Hin]; [discriminate Hin|]);
      by apply elem_of_nil in Hin.
Qed.

(** C9, amended. For a pending file whose name has an extension, the
    path of the upload a Save sends is the id of the owner, "/avatar."
    and that extension, and nothing else of the file enters it: any file
    with the same extension has the same path for this owner.  The
    upload puts the file at that path, so when an earlier upload by the
    owner of a file with that extension is there, the bucket holds the
    same paths after the Save as before: the object is replaced, none is
    added. *)
Theorem avatar_path_by_owner_and_extension
    (st : State) (w : World) (user : User.t) (file : File) (ext : jsstring) :
  auth_user w = Some user ->
  avatarFile st = Some file ->
  extension_of (name file) ext ->
  upload_fault w (filePath user file) file = None ->
  exists st' w',
    handleSubmit st w = (Resolved st', w') /\
    filePath user file = User.id user ++ js "/avatar." ++ ext /\
    (exists cs, issued w w' (AuthGetUser :: AuthGetUser ::
                             StorageUpload (filePath user file) file :: cs)) /\
    avatars w' = <[filePath user file := file]> (avatars w) /\
    (forall prev, extension_of (name prev) ext ->
                  filePath user prev = filePath user file) /\
    (forall prev, extension_of (name prev) ext ->
                  is_Some (avatars w !! filePath user prev) ->
                  dom (avatars w') = dom (avatars w) /\
                  size (avatars w') = size (avatars w) /\
                  avatars w' !! filePath user prev = Some file).
Proof.
  intros Hu Hfile Hext Hf.
  destruct (handleSubmit_frame st w) as (st' & w' & Hsub & _ & _ & Hsent).
  destruct (Hsent user file Hu Hfile) as (Hcalls & Hav).
  specialize (Hav Hf).
  assert (Hsame : forall prev, extension_of (name prev) ext ->
                               filePath user prev = filePath user file).
  { intros prev Hprev.
    by rewrite (filePath_extension_of _ _ _ Hprev),
               (filePath_extension_of _ _ _ Hext). }
  exists st', w'. split; [done|].
  split; [by apply filePath_extension_of|]. do 3 (split; [done|]).
  intros prev Hprev Hold. rewrite (Hsame prev Hprev) in *.
  assert (Hdom : dom (avatars w') = dom (avatars w)).
  { rewrite Hav, dom_insert_L.
    by apply subseteq_union_1_L, singleton_subseteq_l, elem_of_dom. }
  split; [done|]. split.
  - by rewrite <- !size_dom, Hdom.
  - rewrite Hav. apply lookup_insert_eq.
Qed.

(** Two Saves in a row with the file still pending leave one object. *)
Lemma repeated_save_overwrites st w user file st1 w1 st2 w2 :
  auth_user w = Some user ->
  avatarFile st = Some file ->
  upload_fault w (filePath user file) file = None ->
  handleSubmit st w = (Resolved st1, w1) ->
  handleSubmit st1 w1 = (Resolved st2, w2) ->
  avatars w2 = avatars w1 /\
  avatars w1 = <[filePath user file := file]> (avatars w).
Proof.
  intros Hu Hfile Hf H1 H2.
  destruct (handleSubmit_frame st w)
    as (st1' & w1' & H1' & Hfile1 & (Hau1 & _ & _ & Hupl1 & _) & Hsent1).
  rewrite H1 in H1'. injection H1' as <- <-.
  destruct (handleSubmit_frame st1 w1) as (st2' & w2' & H2' & _ & _ & Hsent2).
  rewrite H2 in H2'. injection H2' as <- <-.
  destruct (Hsent1 user file Hu Hfile) as (_ & Hav1). specialize (Hav1 Hf).
  destruct (Hsent2 user file) as (_ & Hav2); [congruence|congruence|].
  rewrite Hav2 by (by rewrite Hupl1).
  split; [|done]. rewrite Hav1. apply insert_insert_eq.
Qed.

(** ** The pending file *)

(** Every handler but the one of the file input hands the pending file
    on as it found it. *)
Lemma handler_keeps_pending_file ev st w :
  (forall files, ev <> FileChange files) ->
  exists st' w', handler ev st w = (Resolved st', w') /\
                 avatarFile st' = avatarFile st.
Proof.
  intros Hev. destruct ev as [| |n v|files|]; simpl.
  - destruct (loadProfile_frame st w) as (st' & w' & Hload & _ & Hfile & _).
    by exists st', w'.
  - by eexists _, _.
  - eexists _, _. split; [reflexivity|]. by destruct n.
  - by destruct (Hev files).
  - destruct (handleSubmit_frame st w) as (st' & w' & Hsub & Hfile & _).
    by exists st', w'.
Qed.

(** The pending file is an invariant of every run without a change of
    the file input. *)
Lemma run_keeps_pending_file evs st w :
  Forall (fun ev => forall files, ev <> FileChange files) evs ->
  exists st' w', run evs st w = (Resolved st', w') /\
                 avatarFile st' = avatarFile st.
Proof.
  intros Hevs. revert st w.
  induction Hevs as [|ev evs Hev _ IH]; intros st w; simpl.
  - by eexists _, _.
  - assert (Hstep : exists st1 w1, step ev st w = (Resolved st1, w1) /\
                                   avatarFile st1 = avatarFile st).
    { unfold step. destruct (enabled ev st).
      - by apply handler_keeps_pending_file.
      - by eexists _, _. }
    destruct Hstep as (st1 & w1 & Hstep & Hfile1).
    destruct (IH st1 w1) as (st' & w' & Hrun & Hfile').
    exists st', w'. unfold bind. rewrite Hstep. split; [done|congruence].
Qed.

(** C10. Save, whether it succeeds or fails, leaves the pending file in
    place, so the next Save of a signed-in user sends the upload of the
    same file again and leaves it in place once more.  No run of events
    without a change of the file input alters the pending file, and that
    event puts the first selected file in its place. *)
Theorem save_keeps_pending_file (st : State) (w : World) :
  exists st1 w1,
    handleSubmit st w = (Resolved st1, w1) /\
    avatarFile st1 = avatarFile st /\
    (forall user file,
        auth_user w = Some user -> avatarFile st = Some file ->
        exists st2 w2 cs,
          handleSubmit st1 w1 = (Resolved st2, w2) /\
          issued w1 w2 (AuthGetUser :: AuthGetUser ::
                        StorageUpload (filePath user file) file :: cs) /\
          avatarFile st2 = Some file) /\
    (forall evs st0 w0,
        Forall (fun ev => forall files, ev <> FileChange files) evs ->
        exists st' w', run evs st0 w0 = (Resolved st', w') /\
                       avatarFile st' = avatarFile st0) /\
    (forall file files st0,
        avatarFile (handleFileChange (Some (file :: files)) st0) = Some file).
Proof.
  destruct (handleSubmit_frame st w)
    as (st1 & w1 & Hsub & Hfile1 & (Hau1 & _) & _).
  exists st1, w1. split; [done|]. split; [done|]. split; [|split].
  - intros user file Hu Hfile.
    destruct (handleSubmit_frame st1 w1)
      as (st2 & w2 & Hsub2 & Hfile2 & _ & Hsent).
    destruct (Hsent user file) as ((cs & Hcs) & _); [congruence|congruence|].
    exists st2, w2, cs. split; [done|]. split; [done|]. congruence.
  - intros evs st0 w0 Hevs. by apply run_keeps_pending_file.
  - done.
Qed.

(** * The properties on the sample data *)

(** A code unit is not in a literal. *)
Ltac not_in_literal :=
  let Hin := fresh in
  intros Hin;
  repeat (apply elem_of_cons in Hin as [Hin|Hin]; [discriminate Hin|]);
  by apply elem_of_nil in Hin.


(** The scenario from end to end: mount, type the four required fields,
    submit without a picture.  The table holds the row of [U1], the form
    is in read mode, and the view shows the fallback texts. *)
Example first_visit :
  let evs := [Mount; Change first_name_input (js "Ada");
              Change last_name_input (js "Lovelace");
              Change date_of_birth_input (js "1815-12-10");
              Change country_input (js "UK"); Submit] in
  let result := run evs initial_state (fresh_world (Some u1)) in
  fst result
  = Resolved (setIsEditing false
                (setProfile (upsert_row (profile ada_draft) u1 (Some (js "")))
                   initial_state)) /\
  ViewProfile.render (profiles (snd result) !! js "U1")
  = ViewProfile.Page (js "Not specified") (js "Not specified")
      (js "Not specified") (ViewProfile.Text no_hobbies).
Proof. split; vm_compute; reflexivity. Qed.

(** Saving twice with the picture still selected uploads it twice, to
    the same path. *)
Example second_save_uploads_again :
  let evs := [Submit; ClickEdit; Submit] in
  let result := run evs ada_draft_with_portrait (fresh_world (Some u1)) in
  filter (fun c => is_upload c = true) (calls (snd result))
  = [StorageUpload (js "U1/avatar.png") portrait;
     StorageUpload (js "U1/avatar.png") portrait] /\
  size (avatars (snd result)) = 1%nat.
Proof. split; vm_compute; reflexivity. Qed.

(** First Save of the scenario: the profile read back is the draft with
    the id [U1] and the URL of the uploaded picture. *)
Lemma save_then_load_witness :
  exists st' w',
    step Submit ada_draft_with_portrait (fresh_world (Some u1))
    = (Resolved st', w') /\
    profile st' = ada_row /\
    profiles w' !! js "U1" = Some (profile st').
Proof.
  destruct (save_then_load ada_draft_with_portrait (fresh_world (Some u1)) u1)
    as (st' & w' & Hstep & Hprofile & _ & _ & _ & _ & _ & _ & _ & Hrow & _);
    [reflexivity|reflexivity|reflexivity|reflexivity|reflexivity|].
  exists st', w'. split; [exact Hstep|]. split; [exact Hprofile|exact Hrow].
Defined.

(** Save with nobody signed in. *)
Lemma save_without_user_witness :
  exists st' w',
    handleSubmit ada_draft (fresh_world None) = (Resolved st', w') /\
    SaveFailure ada_draft (fresh_world None) not_authenticated /\
    error st' = js "No user logged in" /\
    issued (fresh_world None) w' [AuthGetUser] /\
    (forall cs, issued (fresh_world None) w' cs ->
                Forall (fun c => is_store_call c = false) cs) /\
    profiles w' = profiles (fresh_world None) /\
    avatars w' = avatars (fresh_world None).
Proof. apply (save_without_user ada_draft (fresh_world None)). reflexivity. Defined.

(** The returning user picks a new picture and the bucket refuses it:
    the row keeps the URL it had. *)
Lemma save_upload_failure_witness :
  exists st' w',
    handleSubmit ada_changes_picture (returning_world (Some too_large))
    = (Resolved st', w') /\
    avatar_url <$> (profiles w' !! js "U1")
    = Some (Some (bucket_url (js "U1/avatar.png"))) /\
    error st' = js "Payload too large".
Proof.
  destruct (save_upload_failure ada_changes_picture
              (returning_world (Some too_large)) u1 holiday too_large)
    as (st' & w' & Hsub & _ & _ & _ & Hurl & Herr);
    [reflexivity|reflexivity|reflexivity|].
  exists st', w'. split; [exact Hsub|]. split; [|exact Herr].
  exact (eq_trans Hurl eq_refl).
Defined.

(** The same failed Save leaves the form in edit mode with its draft. *)
Lemma failed_save_keeps_draft_witness :
  exists st' w',
    handleSubmit ada_changes_picture (returning_world (Some too_large))
    = (Resolved st', w') /\
    isEditing st' = true /\
    profile st' = ada_row /\
    error st' = js "Payload too large".
Proof.
  destruct (failed_save_keeps_draft ada_changes_picture
              (returning_world (Some too_large)) too_large)
    as (st' & w' & Hsub & _ & _ & Hmode & Hdraft & Herr).
  { apply (UploadFailure _ _ u1 holiday); reflexivity. }
  exists st', w'. split; [exact Hsub|].
  split; [apply Hmode; reflexivity|]. split; [exact Hdraft|exact Herr].
Defined.

(** Mount for a user without a row. *)
Lemma load_without_row_witness :
  exists st' w',
    step Mount initial_state (fresh_world (Some u1)) = (Resolved st', w') /\
    isEditing st' = true /\ profile st' = initial_profile /\
    error st' = js "".
Proof.
  destruct (load_without_row initial_state (fresh_world (Some u1)) u1)
    as (_ & Hmount); [reflexivity|reflexivity|reflexivity|].
  exact Hmount.
Defined.

(** The new picture of the returning user goes where the old one was:
    the bucket still holds one object, the new file. *)
Lemma avatar_path_by_owner_and_extension_witness :
  exists st' w',
    handleSubmit ada_changes_picture (returning_world None)
    = (Resolved st', w') /\
    filePath u1 holiday = js "U1/avatar.png" /\
    filePath u1 portrait = filePath u1 holiday /\
    size (avatars w') = 1%nat /\
    avatars w' !! js "U1/avatar.png" = Some holiday.
Proof.
  assert (Hholiday : extension_of (name holiday) (js "png")).
  { exists (js "holiday"). split; [reflexivity|not_in_literal]. }
  assert (Hportrait : extension_of (name portrait) (js "png")).
  { exists (js "me.at.home"). split; [reflexivity|not_in_literal]. }
  destruct (avatar_path_by_owner_and_extension ada_changes_picture
              (returning_world None) u1 holiday (js "png"))
    as (st' & w' & Hsub & _ & _ & _ & Hsame & Hkept);
    [reflexivity|reflexivity|exact Hholiday|reflexivity|].
  destruct (Hkept portrait Hportrait) as (_ & Hsize & Hnew).
  { exists portrait. reflexivity. }
  exists st', w'. split; [exact Hsub|]. split; [reflexivity|].
  split; [exact (Hsame portrait Hportrait)|]. split; [exact Hsize|exact Hnew].
Defined.


(** * Further properties of the components *)

(** ** The hobbies textarea *)

Lemma trim_idempotent s : trim (trim s) = trim s.
Proof.
  symmetry. apply trimmed_of_unique.
  destruct (trim_trimmed_of s) as (l & r & _ & _ & _ & Hhd & Hlast).
  exists [], []. rewrite app_nil_r. by repeat split.
Qed.

Lemma trim_no_new_char c s : c ∈ trim s -> c ∈ s.
Proof.
  destruct (trim_trimmed_of s) as (l & r & Hs & _).
  intros Hin. rewrite Hs. rewrite !elem_of_app. auto.
Qed.

Lemma trim_skip_whitespace c s : whitespace c -> trim (c :: s) = trim s.
Proof. intros Hc. unfold trim. simpl. unfold whitespace in Hc. by rewrite Hc. Qed.

Lemma trim_app_whitespace s ws : Forall whitespace ws -> trim (s ++ ws) = trim s.
Proof.
  intros Hws. symmetry. apply trimmed_of_unique.
  destruct (trim_trimmed_of s) as (l & r & Hs & Hl & Hr & Hhd & Hlast).
  exists l, (r ++ ws). split; [|by repeat split; try apply Forall_app].
  rewrite Hs at 1. by rewrite <- !app_assoc.
Qed.

(** Text added after the last separator goes to the last segment. *)
Lemma split_app_last sep s t :
  sep ∉ t ->
  exists init lst, split sep s = init ++ [lst] /\
                   split sep (s ++ t) = init ++ [lst ++ t].
Proof.
  intros Ht. induction s as [|c s (init & lst & Hs & Hst)].
  - exists [], []. split; [done|]. simpl. by apply split_one_segment.
  - cbn [app split]. rewrite Hs, Hst. destruct (c =? sep).
    + by exists ([] :: init), lst.
    + destruct init as [|i init]; simpl.
      * by exists [], (c :: lst).
      * by exists ((c :: i) :: init), lst.
Qed.

Lemma joinWith_comma_space h rest :
  joinWith (js ", ") (h :: rest)
  = join comma (h :: map (fun x => 32 :: x) rest).
Proof.
  revert h. induction rest as [|h' rest IH]; intros h; [done|].
  change (joinWith (js ", ") (h :: h' :: rest))
    with (h ++ js ", " ++ joinWith (js ", ") (h' :: rest)).
  rewrite IH. change (js ", ") with [comma; 32].
  cbn [map].
  change (join comma (h :: (32 :: h') :: map (fun x => 32 :: x) rest))
    with (h ++ comma :: join comma ((32 :: h') :: map (fun x => 32 :: x) rest)).
  by rewrite join_cons_char.
Qed.

Lemma whitespace_no_comma ws : Forall whitespace ws -> comma ∉ ws.
Proof.
  intros Hws Hin. rewrite Forall_forall in Hws.
  specialize (Hws comma Hin). discriminate.
Qed.

Lemma hobbies_of_change value st :
  hobbies (profile (handleChange hobbies_input value st))
  = Some (map trim (split comma value)).
Proof. reflexivity. Qed.

Lemma clean_entries_of_split value :
  Forall clean_entry (map trim (split comma value)).
Proof.
  apply Forall_fmap. eapply Forall_impl; [apply (split_no_sep comma)|].
  intros seg Hseg. split; [apply trim_idempotent|].
  intros Hin. by apply Hseg, trim_no_new_char.
Qed.

(** Showing a sequence of clean entries in the textarea and reading the
    text back gives the sequence. *)
Lemma parse_joinWith hs :
  hs <> [] -> Forall clean_entry hs ->
  map trim (split comma (joinWith (js ", ") hs)) = hs.
Proof.
  destruct hs as [|h rest]; [done|]. intros _ Hclean.
  inversion Hclean as [|? ? [Hh Hcomma] Hrest]; subst.
  rewrite joinWith_comma_space.
  rewrite <- (split_unique comma (h :: map (fun x => 32 :: x) rest));
    [|done|reflexivity|].
  - cbn [map]. rewrite Hh. f_equal. clear Hclean.
    induction Hrest as [|h' rest' [Hh' _] _ IH]; [done|].
    cbn [map]. rewrite trim_skip_whitespace by reflexivity.
    by rewrite Hh', IH.
  - constructor; [done|]. apply Forall_fmap.
    eapply Forall_impl; [exact Hrest|].
    intros h' [_ Hc] [Heq|Hin]%elem_of_cons; [discriminate|done].
Qed.

(** X1. Whatever text a change of the hobbies textarea carries, the
    stored sequence has one entry more than the text has commas, so at
    least one, and the Read-Only View shows it as a list: once the
    textarea was edited the fallback text does not come back. *)
Theorem hobbies_change_never_empty (value : jsstring) (st : State) :
  exists hs,
    hobbies (profile (handleChange hobbies_input value st)) = Some hs /\
    length hs = S (length (filter (fun c => c = comma) value)) /\
    ViewProfile.hobbies_cell (profile (handleChange hobbies_input value st))
    = ViewProfile.Items hs.
Proof.
  exists (map trim (split comma value)). split; [reflexivity|].
  assert (Hlen : length (map trim (split comma value))
                 = S (length (filter (fun c => c = comma) value))).
  { by rewrite length_map, length_split. }
  split; [done|].
  unfold ViewProfile.hobbies_cell. rewrite hobbies_of_change, Hlen.
  by rewrite map_id.
Qed.

(** X2. Every entry a change of the hobbies textarea stores is clean: it
    has no comma and no whitespace at either end. *)
Theorem hobbies_change_entries_clean (value : jsstring) (st : State) :
  exists hs,
    hobbies (profile (handleChange hobbies_input value st)) = Some hs /\
    Forall clean_entry hs /\
    Forall (fun h => trimmed_of h h) hs.
Proof.
  exists (map trim (split comma value)). split; [reflexivity|].
  split; [apply clean_entries_of_split|].
  eapply Forall_impl; [apply clean_entries_of_split|].
  intros h [Hh _]. rewrite <- Hh at 2. apply trim_trimmed_of.
Qed.

(** X3. The textarea shows the entries joined by ", "; a change event
    that carries the shown text stores the same sequence again, as long
    as the sequence is not empty and its entries are clean. *)
Theorem hobbies_textarea_round_trip (st : State) (hs : list jsstring) :
  hobbies (profile st) = Some hs ->
  hs <> [] ->
  Forall clean_entry hs ->
  hobbies (profile (handleChange hobbies_input (hobbies_value (profile st)) st))
  = Some hs.
Proof.
  intros Hhs Hne Hclean. rewrite hobbies_of_change. f_equal.
  unfold hobbies_value. rewrite Hhs.
  replace (match joinWith (js ", ") hs with
           | [] => js ""
           | c :: s => c :: s
           end) with (joinWith (js ", ") hs)
    by (by destruct (joinWith (js ", ") hs)).
  by apply parse_joinWith.
Qed.

(** X4. Whitespace at the end of the hobbies text is lost: the change
    stores what it would store without it, so the textarea, which shows
    the stored sequence, never shows a space typed at its end. *)
Theorem hobbies_trailing_whitespace_lost
    (value ws : jsstring) (st : State) :
  Forall whitespace ws ->
  handleChange hobbies_input (value ++ ws) st
  = handleChange hobbies_input value st /\
  hobbies_value (profile (handleChange hobbies_input (value ++ ws) st))
  = hobbies_value (profile (handleChange hobbies_input value st)).
Proof.
  intros Hws.
  assert (Heq : map trim (split comma (value ++ ws))
                = map trim (split comma value)).
  { destruct (split_app_last comma value ws (whitespace_no_comma ws Hws))
      as (init & lst & -> & ->).
    rewrite !map_app. cbn [map]. by rewrite trim_app_whitespace. }
  unfold hobbies_value. rewrite !hobbies_of_change.
  unfold handleChange. by rewrite Heq.
Qed.

(** ** The inputs and the modes of the form *)

(** X5. A change of an input leaves the id, the avatar URL, the mode,
    the error text and the pending file as they are; a second change of
    the same input replaces the first, and changes of two different
    inputs give the same draft in either order. *)
Theorem handleChange_one_field (n : InputName) (v : jsstring) (st : State) :
  (id (profile (handleChange n v st)) = id (profile st) /\
   avatar_url (profile (handleChange n v st)) = avatar_url (profile st) /\
   isEditing (handleChange n v st) = isEditing st /\
   error (handleChange n v st) = error st /\
   avatarFile (handleChange n v st) = avatarFile st) /\
  (forall u, handleChange n v (handleChange n u st) = handleChange n v st) /\
  (forall m u, m <> n ->
               handleChange n v (handleChange m u st)
               = handleChange m u (handleChange n v st)).
Proof.
  split; [by destruct n|]. split.
  - intros u. by destruct n.
  - intros m u Hne. destruct n, m; done.
Qed.

(** X7. A pending file can be replaced but not removed: once a file is
    selected, some file stays pending through every run of events, an
    empty selection included. *)
Theorem pending_file_never_cleared (evs : list Event) (st : State) (w : World) :
  is_Some (avatarFile st) ->
  exists st' w', run evs st w = (Resolved st', w') /\ is_Some (avatarFile st').
Proof.
  revert st w. induction evs as [|ev evs IH]; intros st w Hfile; simpl.
  - by eexists _, _.
  - assert (Hstep : exists st1 w1, step ev st w = (Resolved st1, w1) /\
                                   is_Some (avatarFile st1)).
    { unfold step. destruct (enabled ev st); [|by eexists _, _].
      assert (Hkeep : (forall files, ev <> FileChange files) ->
                exists st1 w1, handler ev st w = (Resolved st1, w1) /\
                               is_Some (avatarFile st1)).
      { intros Hne.
        destruct (handler_keeps_pending_file ev st w Hne)
          as (st1 & w1 & Hh & Heq).
        exists st1, w1. split; [exact Hh|by rewrite Heq]. }
      destruct ev as [| |n v|files|]; try (by apply Hkeep).
      simpl. destruct files as [[|f fs]|]; by eexists _, _. }
    destruct Hstep as (st1 & w1 & Hstep & Hfile1).
    destruct (IH st1 w1 Hfile1) as (st' & w' & Hrun & Hfile').
    exists st', w'. unfold bind. by rewrite Hstep.
Qed.

(** ** Load *)

(** X8. Load only reads. It never rejects; it asks for the user and,
    when there is one, sends one select for the user's id and nothing
    else; both stores, the error text and the pending file are as before.
    The state is either untouched or, when the row was read, the row in
    read mode. *)
Theorem load_only_reads (st : State) (w : World) :
  exists st' w' cs,
    loadProfile st w = (Resolved st', w') /\ issued w w' cs /\
    Forall (fun c => is_write c = false) cs /\
    profiles w' = profiles w /\ avatars w' = avatars w /\
    error st' = error st /\ avatarFile st' = avatarFile st /\
    match auth_user w with
    | None => cs = [AuthGetUser] /\ st' = st
    | Some user =>
        cs = [AuthGetUser; ProfilesSelectSingle (User.id user)] /\
        (st' = st \/
         exists row, profiles w !! User.id user = Some row /\
                     select_fault w (User.id user) = None /\
                     st' = setIsEditing false (setProfile row st))
    end.
Proof.
  assert (Hcalls : forall c d, calls (log d (log c w)) = calls w ++ [c; d]).
  { intros c d. simpl. by rewrite <- app_assoc. }
  destruct (auth_user w) as [user|] eqn:Hu.
  - destruct (select_fault w (User.id user)) as [e|] eqn:Hf;
      [|destruct (profiles w !! User.id user) as [row|] eqn:Hrow].
    + eexists _, _, _. split; [by eapply loadProfile_fault|].
      split; [apply Hcalls|]. split; [by repeat constructor|].
      do 4 (split; [done|]). split; [done|by left].
    + eexists _, _, _. split; [by eapply loadProfile_found|].
      split; [apply Hcalls|]. split; [by repeat constructor|].
      do 4 (split; [done|]). split; [done|]. right. by exists row.
    + eexists _, _, _. split; [by eapply loadProfile_not_found|].
      split; [apply Hcalls|]. split; [by repeat constructor|].
      do 4 (split; [done|]). split; [done|by left].
  - eexists _, _, _. split; [by apply loadProfile_no_user|].
    split; [done|]. split; [by repeat constructor|]. done.
Qed.

(** X9. Load is idempotent: a second Load right after a first resolves
    with the state the first one gave. *)
Theorem load_twice (st : State) (w : World) :
  exists st1 w1 w2,
    loadProfile st w = (Resolved st1, w1) /\
    loadProfile st1 w1 = (Resolved st1, w2).
Proof.
  destruct (auth_user w) as [user|] eqn:Hu.
  - destruct (select_fault w (User.id user)) as [e|] eqn:Hf;
      [|destruct (profiles w !! User.id user) as [row|] eqn:Hrow].
    + eexists _, _, _. split; [by eapply loadProfile_fault|].
      by eapply loadProfile_fault.
    + eexists _, _, _. split; [by eapply loadProfile_found|].
      by erewrite loadProfile_found.
    + eexists _, _, _. split; [by eapply loadProfile_not_found|].
      by eapply loadProfile_not_found.
  - eexists _, _, _. split; [by apply loadProfile_no_user|].
    by apply loadProfile_no_user.
Qed.

(** X10. The two components load alike: on the same backend they send
    the same requests and leave the same world, and either both keep
    what they had or both hold the row that was read, the form in read
    mode. *)
Theorem view_and_form_load_alike
    (v : option UserProfile) (st : State) (w : World) :
  exists v' st' w',
    ViewProfile.loadProfile v w = (Resolved v', w') /\
    loadProfile st w = (Resolved st', w') /\
    ((v' = v /\ st' = st) \/
     (exists row, v' = Some row /\ profile st' = row /\ isEditing st' = false)).
Proof.
  unfold ViewProfile.loadProfile, loadProfile, bind, auth_getUser,
    profiles_select_single.
  destruct (auth_user w) as [user|]; simpl.
  - destruct (select_fault w (User.id user)) as [e|]; simpl;
      [|destruct (profiles w !! User.id user) as [row|]; simpl].
    + eexists _, _, _. split; [done|]. split; [done|]. by left.
    + eexists _, _, _. split; [done|]. split; [done|]. right. by exists row.
    + eexists _, _, _. split; [done|]. split; [done|]. by left.
  - eexists _, _, _. split; [done|]. split; [done|]. by left.
Qed.

(** X11. The Read-Only View, opened afresh, shows its page exactly when
    a user is signed in and the select gives their row; in every other
    case (nobody signed in, no row, a refused select) it keeps showing
    the loading indicator, and no error. *)
Theorem view_page_iff_row_read (w : World) :
  exists v' w',
    ViewProfile.loadProfile None w = (Resolved v', w') /\
    (ViewProfile.render v' <> ViewProfile.Loading <->
     exists user row,
       auth_user w = Some user /\ select_fault w (User.id user) = None /\
       profiles w !! User.id user = Some row /\ v' = Some row).
Proof.
  unfold ViewProfile.loadProfile, bind, auth_getUser, profiles_select_single.
  destruct (auth_user w) as [user|] eqn:Hu; simpl.
  - destruct (select_fault w (User.id user)) as [e|] eqn:Hf; simpl;
      [|destruct (profiles w !! User.id user) as [row|] eqn:Hrow; simpl].
    + eexists _, _. split; [done|]. split; [done|].
      intros (u & r & [= <-] & Hf' & _). congruence.
    + eexists _, _. split; [done|]. split; [|done].
      intros _. by exists user, row.
    + eexists _, _. split; [done|]. split; [done|].
      intros (u & r & [= <-] & _ & Hr & _). congruence.
  - eexists _, _. split; [done|]. split; [done|].
    by intros (u & r & [=] & _).
Qed.

(** ** Save, outcome by outcome *)

(** Every Save resolves, in one of four ways: nobody is signed in; the
    upload is refused; the upsert is refused; the upsert goes through and
    Load follows.  Each comes with the requests sent and the stores
    left. *)
Lemma handleSubmit_cases st w :
  exists st' w' cs,
    handleSubmit st w = (Resolved st', w') /\ issued w w' cs /\
    same_services w w' /\
    ((auth_user w = None /\ cs = [AuthGetUser] /\
      profiles w' = profiles w /\ avatars w' = avatars w /\
      st' = setError (message not_authenticated) st) \/
     (exists user file e,
         auth_user w = Some user /\ avatarFile st = Some file /\
         upload_fault w (filePath user file) file = Some e /\
         cs = [AuthGetUser; AuthGetUser;
               StorageUpload (filePath user file) file] /\
         profiles w' = profiles w /\ avatars w' = avatars w /\
         st' = setError (message e) st) \/
     (exists user e,
         auth_user w = Some user /\
         (forall file, avatarFile st = Some file ->
                       upload_fault w (filePath user file) file = None) /\
         upsert_fault w (upsert_row (profile st) user
                           (resolved_avatar_url st w user)) = Some e /\
         cs = AuthGetUser :: upload_requests st user ++
              [ProfilesUpsert (upsert_row (profile st) user
                                 (resolved_avatar_url st w user))] /\
         profiles w' = profiles w /\ avatars w' = uploaded_bucket st user w /\
         st' = setError (message e) st) \/
     (exists user,
         auth_user w = Some user /\
         (forall file, avatarFile st = Some file ->
                       upload_fault w (filePath user file) file = None) /\
         upsert_fault w (upsert_row (profile st) user
                           (resolved_avatar_url st w user)) = None /\
         cs = AuthGetUser :: upload_requests st user ++
              [ProfilesUpsert (upsert_row (profile st) user
                                 (resolved_avatar_url st w user));
               AuthGetUser; ProfilesSelectSingle (User.id user)] /\
         profiles w' = <[User.id user :=
                           upsert_row (profile st) user
                             (resolved_avatar_url st w user)]> (profiles w) /\
         avatars w' = uploaded_bucket st user w /\
         (st' = setIsEditing false (setError (js "") st) \/
          st' = setIsEditing false
                  (setProfile (upsert_row (profile st) user
                                 (resolved_avatar_url st w user))
                     (setError (js "") st))))).
Proof.
  destruct (auth_user w) as [user|] eqn:Hu.
  2: { eexists _, _, _. split; [by apply handleSubmit_no_user|].
       split; [done|]. split; [by repeat split|]. by left. }
  assert (Hcases :
    (exists file e, avatarFile st = Some file /\
                    upload_fault w (filePath user file) file = Some e) \/
    (forall file, avatarFile st = Some file ->
                  upload_fault w (filePath user file) file = None)).
  { destruct (avatarFile st) as [file|]; [|by right].
    destruct (upload_fault w (filePath user file) file) as [e|] eqn:Hf.
    - left. by exists file, e.
    - right. by intros ? [= <-]. }
  destruct Hcases as [(file & e & Hfile & Hf)|Hup].
  { eexists _, _, _. split; [by eapply handleSubmit_upload_rejected|].
    split; [unfold issued; simpl; by rewrite <- !app_assoc|].
    split; [by repeat split|].
    right; left. by exists user, file, e. }
  destruct (handleSubmit_upsert_sent st w user Hu Hup)
    as (w0 & cs0 & Hsub & Hau & Hpr & Hsel & Hcon & Hav & Hcs & Hcs' & Hsame).
  set (row := upsert_row (profile st) user (resolved_avatar_url st w user)) in *.
  assert (Hcs0 : cs0 = upload_requests st user) by exact Hcs'.
  assert (Hav0 : avatars w0 = uploaded_bucket st user w) by exact Hav.
  unfold issued in Hcs.
  destruct (upsert_fault w row) as [e|] eqn:Hupsert.
  - eexists _, _, _. split; [exact Hsub|].
    split; [unfold issued; simpl; rewrite Hcs, <- app_assoc; reflexivity|].
    split; [exact Hsame|].
    right; right; left. exists user, e.
    do 3 (split; [done|]). split; [by rewrite Hcs0|]. by repeat split.
  - set (w1 := set_profiles (<[User.id user := row]> (profiles w))
                 (log (ProfilesUpsert row) w0)) in *.
    destruct Hsame as (Hau0 & Hsel0 & Hups0 & Hupl0 & Hurl0).
    assert (Hu1 : auth_user w1 = Some user) by (simpl; congruence).
    assert (Hsame1 : same_services w w1) by (by repeat split).
    assert (Hcalls : forall w2,
               calls w2 = calls w1 ++ [AuthGetUser;
                                       ProfilesSelectSingle (User.id user)] ->
               calls w2 = calls w ++
                 AuthGetUser :: upload_requests st user ++
                 [ProfilesUpsert row; AuthGetUser;
                  ProfilesSelectSingle (User.id user)]).
    { intros w2 ->.
      change (calls w1) with (calls w0 ++ [ProfilesUpsert row]).
      rewrite Hcs, Hcs0, <- !app_assoc. reflexivity. }
    destruct (select_fault w1 (User.id user)) as [e|] eqn:Hf1.
    + eexists _, _, _. split.
      { rewrite Hsub. by eapply loadProfile_fault. }
      split; [apply Hcalls; simpl; by rewrite <- app_assoc|].
      split; [by repeat split|].
      right; right; right. exists user.
      do 4 (split; [done|]). split; [done|]. split; [done|]. by left.
    + eexists _, _, _. split.
      { rewrite Hsub. eapply loadProfile_found; [done|done|].
        simpl. apply lookup_insert_eq. }
      split; [apply Hcalls; simpl; by rewrite <- app_assoc|].
      split; [by repeat split|].
      right; right; right. exists user.
      do 4 (split; [done|]). split; [done|]. split; [done|]. by right.
Qed.

(** X12. A Save writes at most the row keyed by the signed-in user and
    the object at the upload path of the pending file: every other row
    and every other object is as before, and the row it leaves for the
    user, when it changed it, carries the user's id. *)
Theorem save_touches_own_data_only (st : State) (w : World) :
  exists st' w',
    handleSubmit st w = (Resolved st', w') /\
    (forall owner,
        (forall user, auth_user w = Some user -> User.id user <> owner) ->
        profiles w' !! owner = profiles w !! owner) /\
    (forall path,
        (forall user file, auth_user w = Some user -> avatarFile st = Some file ->
                           filePath user file <> path) ->
        avatars w' !! path = avatars w !! path) /\
    (forall user,
        auth_user w = Some user ->
        profiles w' !! User.id user = profiles w !! User.id user \/
        exists row, profiles w' !! User.id user = Some row /\
                    id row = User.id user).
Proof.
  destruct (handleSubmit_cases st w) as (st' & w' & cs & Hsub & _ & _ & Hcase).
  exists st', w'. split; [exact Hsub|].
  assert (Hbucket : forall user path,
             auth_user w = Some user ->
             (forall user file, auth_user w = Some user ->
                                avatarFile st = Some file ->
                                filePath user file <> path) ->
             uploaded_bucket st user w !! path = avatars w !! path).
  { intros user path Hu Hpath. unfold uploaded_bucket.
    destruct (avatarFile st) as [file|] eqn:Hfile; [|done].
    apply lookup_insert_ne. by apply Hpath. }
  destruct Hcase as [(Hu & _ & Hpr & Hav & _)
    |[(user & file & e & Hu & _ & _ & _ & Hpr & Hav & _)
    |[(user & e & Hu & _ & _ & _ & Hpr & Hav & _)
    |(user & Hu & _ & _ & _ & Hpr & Hav & _)]]].
  - rewrite Hpr, Hav. repeat split; auto.
  - rewrite Hpr, Hav. repeat split; auto.
  - rewrite Hpr, Hav. split; [done|]. split; [|auto].
    intros path Hpath. by apply Hbucket.
  - rewrite Hpr, Hav. split; [|split].
    + intros owner Howner. apply lookup_insert_ne. by apply Howner.
    + intros path Hpath. by apply Hbucket.
    + intros user' Hu'. rewrite Hu in Hu'. injection Hu' as <-.
      right. eexists. split; [apply lookup_insert_eq|done].
Qed.

(** X13. A Save is not undone when its second half fails: when the
    upload goes through and the upsert is refused, the new object is in
    the bucket, the table is as before, and the form shows the message
    of the upsert. *)
Theorem save_upload_stays_when_upsert_fails
    (st : State) (w : World) (user : User.t) (file : File) (e : Err) :
  auth_user w = Some user ->
  avatarFile st = Some file ->
  upload_fault w (filePath user file) file = None ->
  upsert_fault w (upsert_row (profile st) user
                    (Some (public_url w (filePath user file)))) = Some e ->
  exists st' w',
    handleSubmit st w = (Resolved st', w') /\
    avatars w' = <[filePath user file := file]> (avatars w) /\
    profiles w' = profiles w /\
    st' = setError (message e) st.
Proof.
  intros Hu Hfile Hf Hupsert.
  destruct (handleSubmit_upsert_sent st w user Hu) as
    (w0 & cs & Hsub & _ & Hpr & _ & _ & Hav & _).
  { intros f. rewrite Hfile. by intros [= <-]. }
  unfold resolved_avatar_url in Hsub. rewrite Hfile in Hsub, Hav.
  rewrite Hupsert in Hsub.
  eexists _, _. split; [exact Hsub|]. by repeat split.
Qed.

(** X14. Among the requests of a Save there is at most one upload and at
    most one upsert, and the upload comes before the upsert. *)
Theorem save_uploads_before_upsert (st : State) (w : World) :
  exists st' w' cs uploads upserts,
    handleSubmit st w = (Resolved st', w') /\ issued w w' cs /\
    filter (fun c => is_write c = true) cs = uploads ++ upserts /\
    (uploads = [] \/ exists path file, uploads = [StorageUpload path file]) /\
    (upserts = [] \/ exists row, upserts = [ProfilesUpsert row]).
Proof.
  destruct (handleSubmit_cases st w) as (st' & w' & cs & Hsub & Hcs & _ & Hcase).
  destruct Hcase as [(Hu & -> & _)
    |[(user & file & e & _ & _ & _ & -> & _)
    |[(user & e & _ & _ & _ & -> & _)
    |(user & _ & _ & _ & -> & _)]]].
  - eexists st', w', _, [], [].
    do 2 (split; [done|]). split; [reflexivity|]. split; by left.
  - eexists st', w', _, [StorageUpload (filePath user file) file], [].
    do 2 (split; [done|]). split; [reflexivity|]. split; [|by left].
    right. by eexists _, _.
  - unfold upload_requests in Hcs. revert Hcs.
    destruct (avatarFile st) as [file|]; intros Hcs.
    + eexists st', w', _, [StorageUpload (filePath user file) file],
        [ProfilesUpsert (upsert_row (profile st) user
                           (resolved_avatar_url st w user))].
      do 2 (split; [done|]). split; [reflexivity|].
      split; right; by repeat eexists.
    + eexists st', w', _, [],
        [ProfilesUpsert (upsert_row (profile st) user
                           (resolved_avatar_url st w user))].
      do 2 (split; [done|]). split; [reflexivity|].
      split; [by left|]. right. by eexists.
  - unfold upload_requests in Hcs. revert Hcs.
    destruct (avatarFile st) as [file|]; intros Hcs.
    + eexists st', w', _, [StorageUpload (filePath user file) file],
        [ProfilesUpsert (upsert_row (profile st) user
                           (resolved_avatar_url st w user))].
      do 2 (split; [done|]). split; [reflexivity|].
      split; right; by repeat eexists.
    + eexists st', w', _, [],
        [ProfilesUpsert (upsert_row (profile st) user
                           (resolved_avatar_url st w user))].
      do 2 (split; [done|]). split; [reflexivity|].
      split; [by left|]. right. by eexists.
Qed.

(** X15. A Save deletes no row and adds at most one; when the user
    already has a row, the table has the same keys after the Save. *)
Theorem save_adds_at_most_one_row (st : State) (w : World) :
  exists st' w',
    handleSubmit st w = (Resolved st', w') /\
    dom (profiles w) ⊆ dom (profiles w') /\
    (size (profiles w') <= S (size (profiles w)))%nat /\
    (forall user, auth_user w = Some user ->
                  is_Some (profiles w !! User.id user) ->
                  dom (profiles w') = dom (profiles w)).
Proof.
  destruct (handleSubmit_cases st w) as (st' & w' & cs & Hsub & _ & _ & Hcase).
  exists st', w'. split; [exact Hsub|].
  destruct Hcase as [(Hu & _ & Hpr & _)
    |[(user & file & e & Hu & _ & _ & _ & Hpr & _)
    |[(user & e & Hu & _ & _ & _ & Hpr & _)
    |(user & Hu & _ & _ & _ & Hpr & _)]]];
    rewrite Hpr; try (split; [done|]; split; [lia|done]).
  split; [apply dom_insert_subseteq|]. split.
  - destruct (profiles w !! User.id user) as [old|] eqn:Hold.
    + rewrite map_size_insert_Some by done. lia.
    + rewrite map_size_insert_None by done. lia.
  - intros user' Hu' Hrow. rewrite Hu in Hu'. injection Hu' as <-.
    rewrite dom_insert_L.
    by apply subseteq_union_1_L, singleton_subseteq_l, elem_of_dom.
Qed.

(** X16. Saving again right after a Save whose upsert went through
    changes nothing in the table, whatever the answer to the second
    upsert: the second row is the first. *)
Theorem save_again_changes_nothing (st : State) (w : World) (user : User.t) :
  auth_user w = Some user ->
  (forall file, avatarFile st = Some file ->
                upload_fault w (filePath user file) file = None) ->
  upsert_fault w (upsert_row (profile st) user (resolved_avatar_url st w user))
  = None ->
  exists st1 w1 st2 w2,
    handleSubmit st w = (Resolved st1, w1) /\
    profiles w1 !! User.id user
    = Some (upsert_row (profile st) user (resolved_avatar_url st w user)) /\
    handleSubmit (setIsEditing true st1) w1 = (Resolved st2, w2) /\
    profiles w2 = profiles w1.
Proof.
  intros Hu Hup Hupsert.
  destruct (handleSubmit_cases st w)
    as (st1 & w1 & cs & Hsub & _ & Hsame & Hcase).
  destruct Hcase as [(Hu' & _)
    |[(user' & file & e & Hu' & Hfile & Hf & _)
    |[(user' & e & Hu' & _ & Hupsert' & _)
    |(user' & Hu' & _ & _ & _ & Hpr & _ & Hst1)]]].
  - congruence.
  - assert (user' = user) as -> by congruence.
    rewrite (Hup file Hfile) in Hf. discriminate.
  - assert (user' = user) as -> by congruence. congruence.
  - assert (user' = user) as -> by congruence.
    destruct (handleSubmit_cases (setIsEditing true st1) w1)
      as (st2 & w2 & cs2 & Hsub2 & _ & _ & Hcase2).
    exists st1, w1, st2, w2. split; [done|].
    split; [rewrite Hpr; apply lookup_insert_eq|]. split; [done|].
    destruct Hsame as (Hau & _ & _ & _ & Hurl).
    destruct Hcase2 as [(_ & _ & Hpr2 & _)
      |[(? & ? & ? & _ & _ & _ & _ & Hpr2 & _)
      |[(? & ? & _ & _ & _ & _ & Hpr2 & _)
      |(user2 & Hu2 & _ & _ & _ & Hpr2 & _)]]]; try done.
    assert (user2 = user) as -> by congruence.
    rewrite Hpr2, Hpr.
    replace (upsert_row (profile (setIsEditing true st1)) user
               (resolved_avatar_url (setIsEditing true st1) w1 user))
      with (upsert_row (profile st) user (resolved_avatar_url st w user)).
    { apply insert_insert_eq. }
    unfold resolved_avatar_url, upsert_row. rewrite Hurl.
    destruct Hst1 as [-> | ->]; simpl; unfold resolved_avatar_url;
      by destruct (avatarFile st).
Qed.

(** ** Runs *)

Lemma run_app_resolved evs1 evs2 st w st1 w1 :
  run evs1 st w = (Resolved st1, w1) ->
  run (evs1 ++ evs2) st w = run evs2 st1 w1.
Proof.
  revert st w. induction evs1 as [|ev evs1 IH]; intros st w; simpl.
  - by intros [= -> ->].
  - unfold bind. destruct (step ev st w) as [[st'|e] w']; [apply IH|done].
Qed.

(** Text edits in edit mode send nothing and keep the mode, the id, the
    avatar URL and the pending file. *)
Lemma run_changes edits st w :
  isEditing st = true ->
  exists st',
    run (changes edits) st w = (Resolved st', w) /\
    isEditing st' = true /\ id (profile st') = id (profile st) /\
    avatar_url (profile st') = avatar_url (profile st) /\
    avatarFile st' = avatarFile st.
Proof.
  revert st. induction edits as [|[n v] edits IH]; intros st Hmode; simpl.
  - by exists st.
  - unfold bind, step. simpl. rewrite Hmode. unfold ret at 1.
    destruct (IH (handleChange n v st)) as (st' & Hrun & Hm & Hid & Hurl & Hfile).
    { by destruct n. }
    exists st'. split; [done|]. split; [done|].
    split; [rewrite Hid; by destruct n|].
    split; [rewrite Hurl; by destruct n|].
    rewrite Hfile. by destruct n.
Qed.

(** X17. A visit that loads the row, turns to edit mode, edits text and
    submits without selecting a file leaves the avatar URL of the row,
    and the bucket, as they were: whether the submit is let through,
    accepted or refused. *)
Theorem text_edits_keep_avatar_url
    (w : World) (user : User.t) (row : UserProfile)
    (edits : list (InputName * jsstring)) :
  auth_user w = Some user ->
  select_fault w (User.id user) = None ->
  profiles w !! User.id user = Some row ->
  exists st' w',
    run (Mount :: ClickEdit :: changes edits ++ [Submit]) initial_state w
    = (Resolved st', w') /\
    avatar_url <$> (profiles w' !! User.id user) = Some (avatar_url row) /\
    avatars w' = avatars w.
Proof.
  intros Hu Hsel Hrow.
  cbn [run]. unfold bind at 1. unfold step at 1. cbn [enabled].
  cbn [handler]. rewrite (loadProfile_found _ _ user row Hu Hsel Hrow).
  set (w1 := log (ProfilesSelectSingle (User.id user)) (log AuthGetUser w)).
  unfold bind at 1. unfold step at 1. cbn [enabled handler isEditing setIsEditing negb].
  unfold ret at 1.
  set (st2 := setIsEditing true
                (setIsEditing false (setProfile row initial_state))).
  destruct (run_changes edits st2 w1 eq_refl)
    as (st3 & Hrun & Hmode & _ & Hurl & Hfile).
  rewrite (run_app_resolved _ [Submit] _ _ _ _ Hrun).
  cbn [run]. unfold bind, step.
  destruct (enabled Submit st3).
  2: { eexists _, _. split; [reflexivity|]. simpl. by rewrite Hrow. }
  cbn [handler].
  destruct (handleSubmit_cases st3 w1)
    as (st' & w' & cs & Hsub & _ & _ & Hcase).
  rewrite Hsub. exists st', w'. split; [reflexivity|].
  assert (Hbucket : forall u, uploaded_bucket st3 u w1 = avatars w).
  { intros u. unfold uploaded_bucket. by rewrite Hfile. }
  destruct Hcase as [(_ & _ & Hpr & Hav & _)
    |[(? & ? & ? & _ & _ & _ & _ & Hpr & Hav & _)
    |[(? & ? & _ & _ & _ & _ & Hpr & Hav & _)
    |(user' & Hu' & _ & _ & _ & Hpr & Hav & _)]]];
    rewrite Hpr, Hav, ?Hbucket; try (simpl; by rewrite Hrow).
  assert (user' = user) as -> by (unfold w1 in Hu'; simpl in Hu'; congruence).
  split; [|done]. rewrite lookup_insert_eq. simpl. f_equal.
  unfold resolved_avatar_url. by rewrite Hfile.
Qed.

(** ** More on the upload path *)

(** X18. A picture of another extension does not replace the earlier
    one: it goes to another path, the earlier object stays in the bucket,
    and the bucket grows by one object when that path was free. *)
Theorem other_extension_adds_object
    (st : State) (w : World) (user : User.t) (file old obj : File) :
  auth_user w = Some user ->
  avatarFile st = Some file ->
  upload_fault w (filePath user file) file = None ->
  avatars w !! filePath user old = Some obj ->
  fileExt old <> fileExt file ->
  exists st' w',
    handleSubmit st w = (Resolved st', w') /\
    filePath user old <> filePath user file /\
    avatars w' !! filePath user old = Some obj /\
    avatars w' !! filePath user file = Some file /\
    (avatars w !! filePath user file = None ->
     size (avatars w') = S (size (avatars w))).
Proof.
  intros Hu Hfile Hf Hold Hext.
  destruct (handleSubmit_frame st w) as (st' & w' & Hsub & _ & _ & Hsent).
  destruct (Hsent user file Hu Hfile) as (_ & Hav). specialize (Hav Hf).
  assert (Hne : filePath user old <> filePath user file).
  { intros Heq. by apply Hext, (filePath_inj_ext user). }
  exists st', w'. split; [done|]. split; [done|]. rewrite Hav.
  split; [by rewrite lookup_insert_ne|].
  split; [apply lookup_insert_eq|].
  intros Hfree. by apply map_size_insert_None.
Qed.

(** X19. The last part of the upload path is what follows the last dot
    of the file name: the name is a stem, a dot and that part, and the
    part holds no dot.  A name without a dot has no such part and is
    taken whole, so files without an extension go to paths made of their
    names.  A name that ends in a dot gives the empty part. *)
Theorem upload_path_extension (user : User.t) (file : File) :
  exists ext,
    filePath user file = User.id user ++ js "/avatar." ++ ext /\
    ((exists stem, name file = stem ++ dot :: ext /\ dot ∉ ext) \/
     ((dot ∉ name file) /\ ext = name file)) /\
    (forall ext', (exists stem, name file = stem ++ dot :: ext' /\ dot ∉ ext') ->
                  ext' = ext) /\
    (forall s, name file = s ++ [dot] -> ext = []).
Proof.
  assert (Hcases : exists ext,
             fileExt file = Some ext /\
             ((exists stem, name file = stem ++ dot :: ext /\ dot ∉ ext) \/
              ((dot ∉ name file) /\ ext = name file))).
  { destruct (decide (dot ∈ name file)) as [Hin|Hout].
    - destruct (has_extension _ Hin) as (ext & Hext).
      exists ext. split; [by apply fileExt_of_extension|by left].
    - exists (name file). split; [by apply fileExt_without_dot|by right]. }
  destruct Hcases as (ext & Hfile & Hshape).
  assert (Huniq : forall ext',
             (exists stem, name file = stem ++ dot :: ext' /\ dot ∉ ext') ->
             ext' = ext).
  { intros ext' H'%fileExt_of_extension. congruence. }
  exists ext. split; [unfold filePath; by rewrite Hfile|].
  split; [done|]. split; [done|].
  intros s Hs. symmetry. apply Huniq. exists s.
  split; [done|]. by intros ?%elem_of_nil.
Qed.

Lemma split_app_sep sep a b :
  sep ∉ a -> split sep (a ++ sep :: b) = a :: split sep b.
Proof.
  intros Ha. induction a as [|c a IH]; cbn [app split].
  - by rewrite N.eqb_refl.
  - destruct (N.eqb_spec c sep) as [->|_].
    + exfalso. apply Ha. by left.
    + rewrite IH; [done|]. intros Hin. apply Ha. by right.
Qed.

(** X20. The upload path of a Save lies in the folder named by the id of
    the user, which is what the bucket's policies for INSERT and UPDATE
    ask for: the user may write there, and nobody else may.  The id must
    hold no slash, as no id of the identity provider does. *)
Theorem upload_path_in_own_folder (user : User.t) (file : File) :
  slash ∉ User.id user ->
  may_write (User.id user) (filePath user file) = true /\
  (forall other, other <> User.id user ->
                 may_write other (filePath user file) = false).
Proof.
  intros Hid.
  assert (Hfolder : head (foldername (filePath user file))
                    = Some (User.id user)).
  { unfold foldername, filePath.
    change (js "/avatar." ++ template (fileExt file))
      with (slash :: js "avatar." ++ template (fileExt file)).
    rewrite split_app_sep by done.
    pose proof (split_nonempty slash (js "avatar." ++ template (fileExt file))).
    by destruct (split slash (js "avatar." ++ template (fileExt file))). }
  unfold may_write. rewrite Hfolder. split.
  - by apply bool_decide_eq_true.
  - intros other Hne. apply bool_decide_eq_false. congruence.
Qed.

(** X21. Once the upsert is accepted the form is in read mode with an
    empty error text, whatever the Load that follows meets.  When that
    Load is answered the draft is the stored row; when it is refused the
    draft keeps what was typed, id and avatar URL included, and the error
    of the select goes to the console only. *)
Theorem accepted_save_ends_in_read_mode
    (st : State) (w : World) (user : User.t) :
  auth_user w = Some user ->
  (forall file, avatarFile st = Some file ->
                upload_fault w (filePath user file) file = None) ->
  upsert_fault w (upsert_row (profile st) user (resolved_avatar_url st w user))
  = None ->
  exists st' w',
    handleSubmit st w = (Resolved st', w') /\
    isEditing st' = false /\ error st' = js "" /\
    profiles w' !! User.id user
    = Some (upsert_row (profile st) user (resolved_avatar_url st w user)) /\
    match select_fault w (User.id user) with
    | None => profile st' = upsert_row (profile st) user
                              (resolved_avatar_url st w user) /\
              console w' = console w
    | Some e => profile st' = profile st /\ console w' = console w ++ [e]
    end.
Proof.
  intros Hu Hup Hupsert.
  destruct (handleSubmit_upsert_sent st w user Hu Hup)
    as (w0 & cs & Hsub & Hau & _ & Hsel & Hcon & _).
  rewrite Hupsert in Hsub.
  destruct (select_fault w (User.id user)) as [e|] eqn:Hf.
  - eexists _, _. split.
    { rewrite Hsub. eapply loadProfile_fault; simpl; [by rewrite Hau|].
      by rewrite Hsel. }
    split; [done|]. split; [done|].
    split; [simpl; apply lookup_insert_eq|]. split; [done|].
    simpl. by rewrite Hcon.
  - eexists _, _. split.
    { rewrite Hsub. eapply loadProfile_found; simpl; [by rewrite Hau| |].
      - by rewrite Hsel.
      - apply lookup_insert_eq. }
    split; [done|]. split; [done|].
    split; [simpl; apply lookup_insert_eq|]. split; [done|].
    simpl. by rewrite Hcon.
Qed.

(** * The further properties on the sample data *)

(** The three hobbies come back from the text the textarea shows. *)
Lemma hobbies_textarea_round_trip_witness :
  hobbies_value (profile ada_with_hobbies) = js "chess, reading, hiking" /\
  hobbies (profile (handleChange hobbies_input
                      (hobbies_value (profile ada_with_hobbies))
                      ada_with_hobbies))
  = Some [js "chess"; js "reading"; js "hiking"].
Proof.
  split; [reflexivity|].
  apply (hobbies_textarea_round_trip ada_with_hobbies).
  - reflexivity.
  - discriminate.
  - repeat constructor; try reflexivity; not_in_literal.
Defined.

(** A space typed after "chess, reading" is lost. *)
Lemma hobbies_trailing_whitespace_lost_witness :
  handleChange hobbies_input (js "chess, reading" ++ js " ") ada_draft
  = handleChange hobbies_input (js "chess, reading") ada_draft /\
  hobbies_value (profile (handleChange hobbies_input
                            (js "chess, reading" ++ js " ") ada_draft))
  = hobbies_value (profile (handleChange hobbies_input
                              (js "chess, reading") ada_draft)).
Proof.
  apply (hobbies_trailing_whitespace_lost (js "chess, reading") (js " ")).
  repeat constructor.
Defined.

(** The portrait survives an empty selection, a Save and another empty
    selection. *)
Lemma pending_file_never_cleared_witness :
  exists st' w',
    run [FileChange None; Submit; ClickEdit; FileChange (Some [])]
        ada_draft_with_portrait (fresh_world (Some u1))
    = (Resolved st', w') /\
    is_Some (avatarFile st').
Proof.
  apply pending_file_never_cleared. exists portrait. reflexivity.
Defined.

(** The table refuses the row of [U1]: the portrait is in the bucket all
    the same. *)
Lemma save_upload_stays_when_upsert_fails_witness :
  exists st' w',
    handleSubmit ada_draft_with_portrait refusing_table_world
    = (Resolved st', w') /\
    avatars w' = <[js "U1/avatar.png" := portrait]> ∅ /\
    profiles w' = ∅ /\
    st' = setError (message row_refused) ada_draft_with_portrait.
Proof.
  apply (save_upload_stays_when_upsert_fails ada_draft_with_portrait
           refusing_table_world u1 portrait row_refused); reflexivity.
Defined.

(** The first visit, saved twice. *)
Lemma save_again_changes_nothing_witness :
  exists st1 w1 st2 w2,
    handleSubmit ada_draft_with_portrait (fresh_world (Some u1))
    = (Resolved st1, w1) /\
    profiles w1 !! js "U1" = Some ada_row /\
    handleSubmit (setIsEditing true st1) w1 = (Resolved st2, w2) /\
    profiles w2 = profiles w1.
Proof.
  apply (save_again_changes_nothing ada_draft_with_portrait
           (fresh_world (Some u1)) u1); reflexivity.
Defined.

(** The returning user changes the institution: the row keeps the URL
    of the portrait. *)
Lemma text_edits_keep_avatar_url_witness :
  exists st' w',
    run (Mount :: ClickEdit ::
         changes [(institution_input, js "Analytical Society")] ++ [Submit])
        initial_state (returning_world None)
    = (Resolved st', w') /\
    avatar_url <$> (profiles w' !! js "U1")
    = Some (Some (bucket_url (js "U1/avatar.png"))) /\
    avatars w' = avatars (returning_world None).
Proof.
  apply (text_edits_keep_avatar_url (returning_world None) u1 ada_row);
    reflexivity.
Defined.

(** The scan, a JPG, lands beside the portrait, a png. *)
Lemma other_extension_adds_object_witness :
  exists st' w',
    handleSubmit ada_picks_scan (returning_world None) = (Resolved st', w') /\
    js "U1/avatar.png" <> js "U1/avatar.JPG" /\
    avatars w' !! js "U1/avatar.png" = Some portrait /\
    avatars w' !! js "U1/avatar.JPG" = Some scan /\
    size (avatars w') = 2%nat.
Proof.
  destruct (other_extension_adds_object ada_picks_scan (returning_world None)
              u1 scan portrait portrait)
    as (st' & w' & Hsub & Hne & Hold & Hnew & Hsize);
    [reflexivity|reflexivity|reflexivity|reflexivity|discriminate|].
  exists st', w'. split; [exact Hsub|]. split; [exact Hne|].
  split; [exact Hold|]. split; [exact Hnew|].
  exact (Hsize eq_refl).
Defined.

(** The path of the portrait of [U1] passes the policy for [U1] and
    fails it for anybody else. *)
Lemma upload_path_in_own_folder_witness :
  may_write (js "U1") (js "U1/avatar.png") = true /\
  (forall other, other <> js "U1" ->
                 may_write other (js "U1/avatar.png") = false).
Proof.
  apply (upload_path_in_own_folder u1 portrait). not_in_literal.
Defined.

(** The row of [U1] is stored, the select is refused: read mode, the
    draft as typed, the error on the console. *)
Lemma accepted_save_ends_in_read_mode_witness :
  exists st' w',
    handleSubmit ada_draft unreadable_table_world = (Resolved st', w') /\
    isEditing st' = false /\ error st' = js "" /\
    is_Some (profiles w' !! js "U1") /\
    id (profile st') = js "" /\ console w' = [select_refused].
Proof.
  destruct (accepted_save_ends_in_read_mode ada_draft unreadable_table_world u1)
    as (st' & w' & Hsub & Hmode & Herr & Hrow & Hdraft & Hcon);
    [reflexivity|discriminate|reflexivity|].
  exists st', w'. split; [exact Hsub|]. split; [exact Hmode|].
  split; [exact Herr|]. split; [by eexists|].
  split; [by rewrite Hdraft|exact Hcon].
Defined.
